(** * logseq-mcp-server: validation, remote calls and response rendering

    A shallow embedding of the TypeScript sources
    (constants.ts, schemas/index.ts, types.ts, services/logseq-client.ts,
    services/formatters.ts, tools/page-tools.ts, tools/block-tools.ts,
    tools/search-graph-tools.ts) and the properties the specification
    states about them. *)

From Stdlib Require Import List ZArith NArith Lia Bool String Ascii DecimalString.
Import ListNotations.

Local Open Scope Z_scope.

#[local] Set Warnings "-register-all".

(** ** JavaScript strings

    A JavaScript string is a sequence of UTF-16 code units; [length],
    [slice] and [trim] all count and cut code units. *)

Definition code_unit := N.
Definition jsstring := list code_unit.

(** An ASCII literal as a JavaScript string. *)
Definition u (s : string) : jsstring :=
  map N_of_ascii (list_ascii_of_string s).

Definition LF : jsstring := [10%N].

Definition jsstring_eqb (a b : jsstring) : bool :=
  if list_eq_dec N.eq_dec a b then true else false.

(** [s.length] *)
Definition str_length (s : jsstring) : Z := Z.of_nat (List.length s).

(** Truthiness of a string: every string but the empty one. *)
Definition truthy (s : jsstring) : bool :=
  match s with [] => false | _ :: _ => true end.

(** [`${n}`] for an integer [n] (plain decimal; JavaScript switches to
    exponent notation only from 1e21 on). *)
Definition Number_toString (n : Z) : jsstring :=
  u (NilZero.string_of_int (Z.to_int n)).

(** [start] or [end] of [slice], made relative to a sequence of [len]
    elements. *)
Definition relative_index (len i : Z) : Z :=
  if i <? 0 then Z.max (len + i) 0 else Z.min i len.

(** [Array.prototype.slice(start, end)] and [String.prototype.slice(start, end)]
    for integer arguments. *)
Definition slice {A : Type} (l : list A) (start stop : Z) : list A :=
  let len := Z.of_nat (List.length l) in
  let k := relative_index len start in
  let final := relative_index len stop in
  firstn (Z.to_nat (final - k)) (skipn (Z.to_nat k) l).

(** [Array.prototype.join(sep)] on an array of strings. *)
Fixpoint join (sep : jsstring) (parts : list jsstring) : jsstring :=
  match parts with
  | [] => []
  | [p] => p
  | p :: rest => p ++ sep ++ join sep rest
  end.

(** [String.prototype.repeat(count)] *)
Fixpoint str_repeat (s : jsstring) (count : nat) : jsstring :=
  match count with
  | O => []
  | S n => s ++ str_repeat s n
  end.

(** White space and line terminators, the code units [trim] removes. *)
Definition isWhiteSpace (c : code_unit) : bool :=
  match c with
  | 9 | 10 | 11 | 12 | 13 | 32 | 160 | 5760
  | 8192 | 8193 | 8194 | 8195 | 8196 | 8197 | 8198 | 8199 | 8200 | 8201 | 8202
  | 8232 | 8233 | 8239 | 8287 | 12288 | 65279 => true
  | _ => false
  end%N.

Fixpoint trimStart (s : jsstring) : jsstring :=
  match s with
  | [] => []
  | c :: rest => if isWhiteSpace c then trimStart rest else s
  end.

Definition trimEnd (s : jsstring) : jsstring := rev (trimStart (rev s)).

(** [String.prototype.trim()] *)
Definition trim (s : jsstring) : jsstring := trimEnd (trimStart s).

(** ** constants.ts *)

Definition DEFAULT_API_URL : jsstring := u "http://127.0.0.1:12315".
Definition CHARACTER_LIMIT : Z := 100000.
Definition DEFAULT_PAGE_LIMIT : Z := 50.
Definition REQUEST_TIMEOUT_MS : Z := 30000.

(** ** JSON values *)

(** A JavaScript number as the schemas of this program look at it: every
    numeric parameter is declared [z.number().int()], so a number is either
    an integer (with its value) or a double for which [Number.isInteger] is
    false (a fraction, NaN or an infinity). *)
Inductive jsnumber : Type :=
| Integral (z : Z)
| NonIntegral.

Inductive json : Type :=
| JNull
| JBool (b : bool)
| JNum (n : jsnumber)
| JStr (s : jsstring)
| JArr (items : list json)
| JObj (fields : list (jsstring * json)).

(** Own properties of an object, in insertion order. *)
Definition jsobject := list (jsstring * json).

(** [obj[key]]; [None] is [undefined]. *)
Fixpoint get_prop (key : jsstring) (obj : jsobject) : option json :=
  match obj with
  | [] => None
  | (k, v) :: rest => if jsstring_eqb k key then Some v else get_prop key rest
  end.

Definition keys (obj : jsobject) : list jsstring := map fst obj.

Definition mem (k : jsstring) (ks : list jsstring) : bool :=
  existsb (jsstring_eqb k) ks.

(** ** types.ts *)

Record PageEntity : Type := mkPage {
  page_id : Z;
  page_uuid : jsstring;
  page_name : option jsstring;
  page_originalName : option jsstring;
  page_journal : bool;
  page_namespace : option Z;
  page_properties : option jsobject;
  page_format : option jsstring
}.

Inductive BlockEntity : Type :=
| mkBlock (block_id : Z) (block_uuid : jsstring) (block_content : option jsstring)
          (block_left block_parent block_page : Z)
          (block_properties : option jsobject)
          (block_children : option (list BlockEntity)).

Definition block_uuid (b : BlockEntity) : jsstring :=
  match b with mkBlock _ uuid _ _ _ _ _ _ => uuid end.
Definition block_content (b : BlockEntity) : option jsstring :=
  match b with mkBlock _ _ content _ _ _ _ _ => content end.
Definition block_children (b : BlockEntity) : option (list BlockEntity) :=
  match b with mkBlock _ _ _ _ _ _ _ children => children end.

Record LogseqApiRequest : Type := mkRequest {
  req_method : jsstring;
  req_args : list json
}.

(** [LinkedReference = [PageEntity, BlockEntity[]]] *)
Definition LinkedReference : Type := PageEntity * list BlockEntity.

(** ** services/formatters.ts *)

Record ContentItem : Type := mkContent {
  item_type : jsstring;
  item_text : jsstring
}.

(** A tool result; [isError = None] is a result without the field. *)
Record ToolResult : Type := mkResult {
  isError : option bool;
  content : list ContentItem
}.

(** Truncate text that exceeds CHARACTER_LIMIT. *)
Definition truncate (text : jsstring) : jsstring :=
  if str_length text <=? CHARACTER_LIMIT then text
  else
    slice text 0 CHARACTER_LIMIT ++
    (LF ++ LF ++ u "[Response truncated " ++ [8212%N] ++ u " " ++
     Number_toString (str_length text - CHARACTER_LIMIT) ++
     u " characters omitted]").

(** Build a successful text response for MCP. *)
Definition textResponse (text : jsstring) : ToolResult :=
  {| isError := None;
     content := [ {| item_type := u "text"; item_text := truncate text |} ] |}.

(** Build an error response for MCP. *)
Definition errorResponse (message : jsstring) : ToolResult :=
  {| isError := Some true;
     content := [ {| item_type := u "text"; item_text := message |} ] |}.

(** Render a block tree as indented Markdown.

    [blockLines depth block] is one turn of the [for (const block of blocks)]
    loop: the strings it pushes onto [lines].  [renderBlockTree] runs the
    loop over [blocks] and joins [lines]. *)
Fixpoint blockLines (depth : nat) (block : BlockEntity) {struct block}
  : list jsstring :=
  let indent := str_repeat (u "  ") depth in
  let content := option_map trim (block_content block) in
  (match content with
   | Some c => if truthy c then [indent ++ u "- " ++ c] else []
   | None => []
   end) ++
  (match block_children block with
   | Some children =>
       if 0 <? Z.of_nat (List.length children)
       then [join LF (flat_map (blockLines (S depth)) children)]
       else []
   | None => []
   end).

Definition renderBlockTree (blocks : list BlockEntity) (depth : nat) : jsstring :=
  join LF (flat_map (blockLines depth) blocks).

(** [`${value}`] for a string that may be [undefined]. *)
Definition template_string (s : option jsstring) : jsstring :=
  match s with Some v => v | None => u "undefined" end.

(** [a || b] on strings that may be [undefined]. *)
Definition or_else (a b : option jsstring) : option jsstring :=
  match a with
  | Some v => if truthy v then a else b
  | None => b
  end.

(** Format a page entity into a concise summary line. *)
Definition formatPageSummary (page : PageEntity) : jsstring :=
  let journal := if page_journal page then u " " ++ [55357%N; 56517%N] else [] in
  let ns := match page_namespace page with
            | Some id => u " (ns: " ++ Number_toString id ++ u ")"
            | None => []
            end in
  u "- **" ++ template_string (or_else (page_originalName page) (page_name page)) ++
  u "** (uuid: " ++ page_uuid page ++ u ")" ++ journal ++ ns.

(** A thrown value: an instance of [Error] (also [TypeError], [SyntaxError])
    or a [DOMException], which carries a [name] besides its message. *)
Inductive JsExn : Type :=
| ErrorExn (message : jsstring)
| DOMExceptionExn (name message : jsstring).

(** Safely extract an error message from an unknown thrown value.  In Node
    a [DOMException] is an instance of [Error]. *)
Definition extractErrorMessage (error : JsExn) : jsstring :=
  match error with
  | ErrorExn message => message
  | DOMExceptionExn _ message => message
  end.

(** ** The schema library (zod)

    The combinators this program builds its schemas from.  The library is
    not part of the repository; [parse] follows its documented behaviour
    and the validator's contract in the specification (section 4.1). *)

Inductive PathElem : Type :=
| PathKey (key : jsstring)
| PathIndex (index : nat).

Inductive IssueCode : Type :=
| invalid_type
| too_small
| too_big
| invalid_enum_value
| unrecognized_keys (extra : list jsstring).

Record ZodIssue : Type := mkIssue {
  issue_path : list PathElem;
  issue_code : IssueCode
}.

Inductive ParseResult (A : Type) : Type :=
| Success (data : A)
| Failure (issues : list ZodIssue).
Arguments Success {A} data.
Arguments Failure {A} issues.

Inductive UnknownKeys : Type := strip | strict.

Inductive ZodType : Type -> Type :=
| ZodString (minLength maxLength : option Z) : ZodType jsstring
| ZodInt (minValue maxValue : option Z) : ZodType Z
| ZodBoolean : ZodType bool
| ZodEnum (values : list jsstring) : ZodType jsstring
| ZodUnknown : ZodType (option json)
| ZodRecord : ZodType jsobject
| ZodArray (A : Type) (element : ZodType A) (minLength : option Z) : ZodType (list A)
| ZodOptional (A : Type) (inner : ZodType A) : ZodType (option A)
| ZodDefault (A : Type) (inner : ZodType A) (defaultValue : json) : ZodType A
| ZodObject (R : Type) (shape : ZodShape R) (unknownKeys : UnknownKeys) : ZodType R
with ZodShape : Type -> Type :=
| ShapeNil (R : Type) (build : R) : ZodShape R
| ShapeSnoc (A R : Type) (fields : ZodShape (A -> R)) (key : jsstring)
            (field : ZodType A) : ZodShape R.

Arguments ZodArray {A} element minLength.
Arguments ZodOptional {A} inner.
Arguments ZodDefault {A} inner defaultValue.
Arguments ZodObject {R} shape unknownKeys.
Arguments ShapeNil {R} build.
Arguments ShapeSnoc {A R} fields key field.

(** The keys a shape declares, in declaration order. *)
Fixpoint shape_keys {R : Type} (shape : ZodShape R) : list jsstring :=
  match shape with
  | ShapeNil _ => []
  | ShapeSnoc fields key _ => shape_keys fields ++ [key]
  end.

Definition issue (code : IssueCode) : ZodIssue :=
  {| issue_path := []; issue_code := code |}.

Definition under (p : PathElem) (i : ZodIssue) : ZodIssue :=
  {| issue_path := p :: issue_path i; issue_code := issue_code i |}.

Definition at_path {A : Type} (p : PathElem) (r : ParseResult A) : ParseResult A :=
  match r with
  | Success a => Success a
  | Failure issues => Failure (map (under p) issues)
  end.

(** Both parts are parsed and the issues of both are reported. *)
Definition both {A B C : Type} (f : A -> B -> C)
  (ra : ParseResult A) (rb : ParseResult B) : ParseResult C :=
  match ra, rb with
  | Success a, Success b => Success (f a b)
  | Success _, Failure ib => Failure ib
  | Failure ia, Success _ => Failure ia
  | Failure ia, Failure ib => Failure (ia ++ ib)
  end.

(** The checks [.min(lo)] and [.max(hi)] on a measured value. *)
Definition range_issues (lo hi : option Z) (measure : Z) : list ZodIssue :=
  (match lo with
   | Some l => if measure <? l then [issue too_small] else []
   | None => []
   end) ++
  (match hi with
   | Some h => if h <? measure then [issue too_big] else []
   | None => []
   end).

Definition checked {A : Type} (issues : list ZodIssue) (a : A) : ParseResult A :=
  match issues with
  | [] => Success a
  | _ :: _ => Failure issues
  end.

(** Elements of an array, parsed one by one with their index. *)
Fixpoint parse_items {A : Type} (parse_item : option json -> ParseResult A)
  (index : nat) (items : list json) : ParseResult (list A) :=
  match items with
  | [] => Success []
  | item :: rest =>
      both cons (at_path (PathIndex index) (parse_item (Some item)))
                (parse_items parse_item (S index) rest)
  end.

(** [schema.safeParse(input)]; the input [None] is [undefined]. *)
Fixpoint parse {A : Type} (schema : ZodType A) (input : option json)
  {struct schema} : ParseResult A :=
  match schema in ZodType T return ParseResult T with
  | ZodString lo hi =>
      match input with
      | Some (JStr s) => checked (range_issues lo hi (str_length s)) s
      | _ => Failure [issue invalid_type]
      end
  | ZodInt lo hi =>
      match input with
      | Some (JNum (Integral n)) => checked (range_issues lo hi n) n
      | _ => Failure [issue invalid_type]
      end
  | ZodBoolean =>
      match input with
      | Some (JBool b) => Success b
      | _ => Failure [issue invalid_type]
      end
  | ZodEnum values =>
      match input with
      | Some (JStr s) =>
          if mem s values then Success s else Failure [issue invalid_enum_value]
      | _ => Failure [issue invalid_type]
      end
  | ZodUnknown => Success input
  | ZodRecord =>
      match input with
      | Some (JObj fields) => Success fields
      | _ => Failure [issue invalid_type]
      end
  | ZodArray element lo =>
      match input with
      | Some (JArr items) =>
          both (fun _ parsed => parsed)
               (checked (range_issues lo None (Z.of_nat (List.length items))) tt)
               (parse_items (parse element) 0 items)
      | _ => Failure [issue invalid_type]
      end
  | ZodOptional inner =>
      match input with
      | None => Success None
      | Some _ =>
          match parse inner input with
          | Success a => Success (Some a)
          | Failure issues => Failure issues
          end
      end
  | ZodDefault inner defaultValue =>
      match input with
      | None => parse inner (Some defaultValue)
      | Some _ => parse inner input
      end
  | ZodObject shape unknownKeys =>
      match input with
      | Some (JObj fields) =>
          let extra := filter (fun k => negb (mem k (shape_keys shape))) (keys fields) in
          both (fun parsed _ => parsed)
               (parse_shape shape fields)
               (match unknownKeys, extra with
                | strict, _ :: _ => Failure [issue (unrecognized_keys extra)]
                | _, _ => Success tt
                end)
      | _ => Failure [issue invalid_type]
      end
  end
with parse_shape {R : Type} (shape : ZodShape R) (fields : jsobject)
  {struct shape} : ParseResult R :=
  match shape in ZodShape T return ParseResult T with
  | ShapeNil build => Success build
  | ShapeSnoc rest key field =>
      both (fun build value => build value)
           (parse_shape rest fields)
           (at_path (PathKey key) (parse field (get_prop key fields)))
  end.

Notation "shape '<+' key ':=' field" := (ShapeSnoc shape (u key) field)
  (at level 50, left associativity, key at next level, field at next level).

Definition num (n : Z) : json := JNum (Integral n).

(** ** schemas/index.ts

    Each schema comes with the record of the parameters it produces; the
    record's fields carry the names of the schema's keys. *)

(** *** Page schemas *)

Module ListPages.
Record Params : Type := mk {
  limit : Z;
  offset : Z;
  journal_only : bool;
  namespace : option jsstring
}.
End ListPages.

Definition ListPagesSchema : ZodType ListPages.Params :=
  ZodObject
    (ShapeNil ListPages.mk
     <+ "limit" := ZodDefault (ZodInt (Some 1) (Some 500)) (num 50)
     <+ "offset" := ZodDefault (ZodInt (Some 0) None) (num 0)
     <+ "journal_only" := ZodDefault ZodBoolean (JBool false)
     <+ "namespace" := ZodOptional (ZodString None None))
    strict.

Module GetPage.
Record Params : Type := mk {
  name : jsstring;
  include_children : bool
}.
End GetPage.

Definition GetPageSchema : ZodType GetPage.Params :=
  ZodObject
    (ShapeNil GetPage.mk
     <+ "name" := ZodString (Some 1) None
     <+ "include_children" := ZodDefault ZodBoolean (JBool false))
    strict.

Module GetPageContent.
Record Params : Type := mk { name : jsstring }.
End GetPageContent.

Definition GetPageContentSchema : ZodType GetPageContent.Params :=
  ZodObject (ShapeNil GetPageContent.mk <+ "name" := ZodString (Some 1) None) strict.

Module CreatePage.
Record Params : Type := mk {
  name : jsstring;
  content : option jsstring;
  properties : option jsobject;
  format : jsstring;
  journal : bool
}.
End CreatePage.

Definition CreatePageSchema : ZodType CreatePage.Params :=
  ZodObject
    (ShapeNil CreatePage.mk
     <+ "name" := ZodString (Some 1) None
     <+ "content" := ZodOptional (ZodString None None)
     <+ "properties" := ZodOptional ZodRecord
     <+ "format" := ZodDefault (ZodEnum [u "markdown"; u "org"]) (JStr (u "markdown"))
     <+ "journal" := ZodDefault ZodBoolean (JBool false))
    strict.

Module DeletePage.
Record Params : Type := mk { name : jsstring }.
End DeletePage.

Definition DeletePageSchema : ZodType DeletePage.Params :=
  ZodObject (ShapeNil DeletePage.mk <+ "name" := ZodString (Some 1) None) strict.

Module RenamePage.
Record Params : Type := mk {
  old_name : jsstring;
  new_name : jsstring
}.
End RenamePage.

Definition RenamePageSchema : ZodType RenamePage.Params :=
  ZodObject
    (ShapeNil RenamePage.mk
     <+ "old_name" := ZodString (Some 1) None
     <+ "new_name" := ZodString (Some 1) None)
    strict.

Module GetPageLinkedReferences.
Record Params : Type := mk { name : jsstring }.
End GetPageLinkedReferences.

Definition GetPageLinkedReferencesSchema : ZodType GetPageLinkedReferences.Params :=
  ZodObject
    (ShapeNil GetPageLinkedReferences.mk <+ "name" := ZodString (Some 1) None)
    strict.

(** *** Block schemas *)

Module GetBlock.
Record Params : Type := mk {
  id : jsstring;
  include_children : bool
}.
End GetBlock.

Definition GetBlockSchema : ZodType GetBlock.Params :=
  ZodObject
    (ShapeNil GetBlock.mk
     <+ "id" := ZodString (Some 1) None
     <+ "include_children" := ZodDefault ZodBoolean (JBool false))
    strict.

Module InsertBlock.
Record Params : Type := mk {
  page_or_block : jsstring;
  content : jsstring;
  sibling : bool;
  before : bool;
  properties : option jsobject
}.
End InsertBlock.

Definition InsertBlockSchema : ZodType InsertBlock.Params :=
  ZodObject
    (ShapeNil InsertBlock.mk
     <+ "page_or_block" := ZodString (Some 1) None
     <+ "content" := ZodString None None
     <+ "sibling" := ZodDefault ZodBoolean (JBool false)
     <+ "before" := ZodDefault ZodBoolean (JBool false)
     <+ "properties" := ZodOptional ZodRecord)
    strict.

Module AppendBlock.
Record Params : Type := mk {
  page : jsstring;
  content : jsstring;
  properties : option jsobject
}.
End AppendBlock.

Definition AppendBlockSchema : ZodType AppendBlock.Params :=
  ZodObject
    (ShapeNil AppendBlock.mk
     <+ "page" := ZodString (Some 1) None
     <+ "content" := ZodString None None
     <+ "properties" := ZodOptional ZodRecord)
    strict.

Module UpdateBlock.
Record Params : Type := mk {
  id : jsstring;
  content : jsstring;
  properties : option jsobject
}.
End UpdateBlock.

Definition UpdateBlockSchema : ZodType UpdateBlock.Params :=
  ZodObject
    (ShapeNil UpdateBlock.mk
     <+ "id" := ZodString (Some 1) None
     <+ "content" := ZodString None None
     <+ "properties" := ZodOptional ZodRecord)
    strict.

Module RemoveBlock.
Record Params : Type := mk { id : jsstring }.
End RemoveBlock.

Definition RemoveBlockSchema : ZodType RemoveBlock.Params :=
  ZodObject (ShapeNil RemoveBlock.mk <+ "id" := ZodString (Some 1) None) strict.

Module MoveBlock.
Record Params : Type := mk {
  src_id : jsstring;
  target_id : jsstring;
  before : bool;
  children : bool
}.
End MoveBlock.

Definition MoveBlockSchema : ZodType MoveBlock.Params :=
  ZodObject
    (ShapeNil MoveBlock.mk
     <+ "src_id" := ZodString (Some 1) None
     <+ "target_id" := ZodString (Some 1) None
     <+ "before" := ZodDefault ZodBoolean (JBool false)
     <+ "children" := ZodDefault ZodBoolean (JBool false))
    strict.

Module InsertBatchBlock.
Record Child : Type := mkChild {
  child_content : jsstring;
  child_properties : option jsobject
}.
Record Block : Type := mkBlock {
  content : jsstring;
  properties : option jsobject;
  children : option (list Child)
}.
Record Params : Type := mk {
  page_or_block : jsstring;
  blocks : list Block;
  sibling : bool
}.
End InsertBatchBlock.

Definition InsertBatchBlockSchema : ZodType InsertBatchBlock.Params :=
  ZodObject
    (ShapeNil InsertBatchBlock.mk
     <+ "page_or_block" := ZodString (Some 1) None
     <+ "blocks" :=
          ZodArray
            (ZodObject
               (ShapeNil InsertBatchBlock.mkBlock
                <+ "content" := ZodString None None
                <+ "properties" := ZodOptional ZodRecord
                <+ "children" :=
                     ZodOptional
                       (ZodArray
                          (ZodObject
                             (ShapeNil InsertBatchBlock.mkChild
                              <+ "content" := ZodString None None
                              <+ "properties" := ZodOptional ZodRecord)
                             strip)
                          None))
               strip)
            (Some 1)
     <+ "sibling" := ZodDefault ZodBoolean (JBool false))
    strict.

Module BlockProperty.
(** [value = None] is a [value] that is [undefined], omitted or not. *)
Record Params : Type := mk {
  id : jsstring;
  key : jsstring;
  value : option json
}.
End BlockProperty.

Definition BlockPropertySchema : ZodType BlockProperty.Params :=
  ZodObject
    (ShapeNil (fun id key value =>
                 BlockProperty.mk id key
                   (match value with Some v => v | None => None end))
     <+ "id" := ZodString (Some 1) None
     <+ "key" := ZodString (Some 1) None
     <+ "value" := ZodOptional ZodUnknown)
    strict.

(** *** Search schema *)

Module Search.
Record Params : Type := mk { query : jsstring }.
End Search.

Definition SearchSchema : ZodType Search.Params :=
  ZodObject (ShapeNil Search.mk <+ "query" := ZodString (Some 1) (Some 500)) strict.

(** *** Journal schema *)

Module CreateJournal.
Record Params : Type := mk { date : jsstring }.
End CreateJournal.

Definition CreateJournalSchema : ZodType CreateJournal.Params :=
  ZodObject (ShapeNil CreateJournal.mk <+ "date" := ZodString (Some 1) None) strict.

(** *** Graph schema *)

Definition GetGraphInfoSchema : ZodType unit := ZodObject (ShapeNil tt) strict.

Definition GetAllTagsSchema : ZodType unit := ZodObject (ShapeNil tt) strict.

(** ** The network, as [LogseqClient.call] meets it

    Times are milliseconds since the call started.  An [Exchange] is what
    the network would do with one request if nothing aborted it; [fetch]
    is the platform's [fetch] under an [AbortController] whose [abort()] a
    timer triggers after [abort_after] milliseconds. *)

Inductive Arrival : Type :=
| Never
| At (ms : Z).

Definition within (a : Arrival) (timeout : Z) : bool :=
  match a with
  | Never => false
  | At ms => ms <=? timeout
  end.

(** The body of a reply: its text, and what parsing it as JSON gives. *)
Record Body (T : Type) : Type := mkBody {
  body_text : jsstring;
  body_json : JsExn + T
}.
Arguments mkBody {T} body_text body_json.
Arguments body_text {T} b.
Arguments body_json {T} b.

Inductive Exchange (T : Type) : Type :=
| Unreachable (failed_at : Arrival) (error : JsExn)
| Replies (head_at : Arrival) (status : Z) (statusText : jsstring)
          (body_at : Arrival) (body : Body T).
Arguments Unreachable {T} failed_at error.
Arguments Replies {T} head_at status statusText body_at body.

(** Neither a reply nor a failure has come by [timeout]. *)
Definition unanswered {T : Type} (x : Exchange T) (timeout : Z) : bool :=
  match x with
  | Unreachable failed_at _ => negb (within failed_at timeout)
  | Replies head_at _ _ _ _ => negb (within head_at timeout)
  end.

Record Response (T : Type) : Type := mkResponse {
  resp_status : Z;
  resp_statusText : jsstring;
  resp_text : JsExn + jsstring;
  resp_json : JsExn + T
}.
Arguments mkResponse {T} resp_status resp_statusText resp_text resp_json.
Arguments resp_status {T} r.
Arguments resp_statusText {T} r.
Arguments resp_text {T} r.
Arguments resp_json {T} r.

(** [response.ok] *)
Definition resp_ok {T : Type} (r : Response T) : bool :=
  (200 <=? resp_status r) && (resp_status r <=? 299).

Definition AbortError : JsExn :=
  DOMExceptionExn (u "AbortError") (u "This operation was aborted").

Definition fetch {T : Type} (x : Exchange T) (abort_after : Z)
  : JsExn + Response T :=
  match x with
  | Unreachable failed_at error =>
      if within failed_at abort_after then inl error else inl AbortError
  | Replies head_at status statusText body_at body =>
      if within head_at abort_after then
        inr {| resp_status := status;
               resp_statusText := statusText;
               resp_text := if within body_at abort_after
                            then inr (body_text body) else inl AbortError;
               resp_json := if within body_at abort_after
                            then body_json body else inl AbortError |}
      else inl AbortError
  end.

(** ** Computations that send requests and may throw

    The state is the list of POST requests sent so far, each with what
    became of it. *)

Record Posted : Type := mkPosted {
  post_url : jsstring;
  post_authorization : jsstring;
  post_body : LogseqApiRequest;
  post_unanswered : bool;
  post_thrown : option JsExn
}.

Definition M (A : Type) : Type := list Posted -> (JsExn + A) * list Posted.

Definition ret {A : Type} (a : A) : M A := fun log => (inr a, log).

Definition throw {A : Type} (e : JsExn) : M A := fun log => (inl e, log).

Definition bind {A B : Type} (m : M A) (k : A -> M B) : M B :=
  fun log =>
    match m log with
    | (inr a, log') => k a log'
    | (inl e, log') => (inl e, log')
    end.

(** [try { body } catch (error) { handler }] *)
Definition try_catch {A : Type} (body : M A) (handler : JsExn -> M A) : M A :=
  fun log =>
    match body log with
    | (inr a, log') => (inr a, log')
    | (inl e, log') => handler e log'
    end.

Notation "'let*' x ':=' m 'in' k" := (bind m (fun x => k))
  (at level 10, x name, m at level 100, k at level 200).
Notation "m ';;' k" := (bind m (fun _ => k))
  (at level 100, k at level 200, right associativity).

(** ** services/logseq-client.ts *)

Record LogseqClient : Type := mkClient {
  baseUrl : jsstring;
  token : jsstring
}.

(** [s.replace(/\/+$/, "")]: drop the slashes at the end. *)
Fixpoint dropSlashes (reversed : jsstring) : jsstring :=
  match reversed with
  | 47%N :: rest => dropSlashes rest
  | _ => reversed
  end.

Definition stripTrailingSlashes (s : jsstring) : jsstring :=
  rev (dropSlashes (rev s)).

Definition new_LogseqClient (token : jsstring) (baseUrl : option jsstring)
  : LogseqClient :=
  {| token := token;
     baseUrl := stripTrailingSlashes
                  (match baseUrl with Some url => url | None => DEFAULT_API_URL end) |}.

Definition timeoutMessage : jsstring :=
  u "Logseq API request timed out after " ++ Number_toString REQUEST_TIMEOUT_MS ++
  u "ms. " ++ u "Ensure Logseq is running and the HTTP API server is started.".

(** What [call] returns or throws on an exchange: the [try] block, then
    the [catch] clause. *)
Definition call_outcome {T : Type} (x : Exchange T) : JsExn + T :=
  let attempt :=
    match fetch x REQUEST_TIMEOUT_MS with
    | inl error => inl error
    | inr response =>
        if negb (resp_ok response) then
          let text := match resp_text response with
                      | inr t => t
                      | inl _ => []
                      end in
          inl (ErrorExn
                 (u "Logseq API error " ++ Number_toString (resp_status response) ++
                  u ": " ++ (if truthy text then text else resp_statusText response)))
        else resp_json response
    end in
  match attempt with
  | inl (DOMExceptionExn name message) =>
      if jsstring_eqb name (u "AbortError")
      then inl (ErrorExn timeoutMessage)
      else inl (DOMExceptionExn name message)
  | other => other
  end.

(** The record of the POST that [call] sends: where to, with which
    authorization and body, and what became of it. *)
Definition posted {T : Type} (this : LogseqClient) (method : jsstring)
  (args : list json) (x : Exchange T) : Posted :=
  {| post_url := baseUrl this ++ u "/api";
     post_authorization := u "Bearer " ++ token this;
     post_body := {| req_method := method; req_args := args |};
     post_unanswered := unanswered x REQUEST_TIMEOUT_MS;
     post_thrown := match call_outcome x with
                    | inl e => Some e
                    | inr _ => None
                    end |}.

(** Call any Logseq plugin SDK method via HTTP API: one POST to
    [`${baseUrl}/api`], whose fate is [x]. *)
Definition call {T : Type} (this : LogseqClient) (method : jsstring)
  (args : list json) (x : Exchange T) : M T :=
  fun log => (call_outcome x, log ++ [posted this method args x]).

(** The reply types of [logseq.App.search] and [logseq.App.getCurrentGraph]. *)
Record SearchResult : Type := mkSearchResult {
  result_blocks : option (list BlockEntity);
  result_pages : option (list jsstring)
}.

Record Graph : Type := mkGraph {
  graph_name : jsstring;
  graph_path : jsstring;
  graph_url : jsstring
}.

(** The exchange each client method's request meets during one tool
    invocation, with the reply typed as the method declares it; a reply
    the handlers test for [null] is an [option]. *)
Record Remote : Type := mkRemote {
  on_getAllPages : Exchange (list PageEntity);
  on_getPage : Exchange (option PageEntity);
  on_getPageBlocksTree : Exchange (option (list BlockEntity));
  on_getPageLinkedReferences : Exchange (option (list LinkedReference));
  on_createPage : Exchange PageEntity;
  on_deletePage : Exchange unit;
  on_renamePage : Exchange unit;
  on_getBlock : Exchange (option BlockEntity);
  on_insertBlock : Exchange BlockEntity;
  on_insertBatchBlock : Exchange (list BlockEntity);
  on_updateBlock : Exchange unit;
  on_removeBlock : Exchange unit;
  on_moveBlock : Exchange unit;
  on_appendBlockInPage : Exchange BlockEntity;
  on_getBlockProperties : Exchange jsobject;
  on_upsertBlockProperty : Exchange unit;
  on_createJournalPage : Exchange PageEntity;
  on_getAllTags : Exchange (option (list PageEntity));
  on_search : Exchange SearchResult;
  on_getCurrentGraph : Exchange (option Graph)
}.

(** An object literal on the wire: [JSON.stringify] leaves out the
    properties whose value is [undefined]. *)
Fixpoint object_literal (props : list (jsstring * option json)) : jsobject :=
  match props with
  | [] => []
  | (k, Some v) :: rest => (k, v) :: object_literal rest
  | (_, None) :: rest => object_literal rest
  end.

(** [obj[key] = value] *)
Fixpoint set_prop (key : jsstring) (value : json) (obj : jsobject) : jsobject :=
  match obj with
  | [] => [(key, value)]
  | (k, v) :: rest =>
      if jsstring_eqb k key then (k, value) :: rest
      else (k, v) :: set_prop key value rest
  end.

(** [{ ...target, ...source }] *)
Definition spread (target source : jsobject) : jsobject :=
  fold_left (fun acc kv => set_prop (fst kv) (snd kv) acc) source target.

(** [opts ?? {}] *)
Definition opts_or_empty (opts : option jsobject) : json :=
  JObj (match opts with Some o => o | None => [] end).

Definition batch_child_json (c : InsertBatchBlock.Child) : json :=
  JObj (object_literal
          [ (u "content", Some (JStr (InsertBatchBlock.child_content c)));
            (u "properties", option_map JObj (InsertBatchBlock.child_properties c)) ]).

Definition batch_block_json (b : InsertBatchBlock.Block) : json :=
  JObj (object_literal
          [ (u "content", Some (JStr (InsertBatchBlock.content b)));
            (u "properties", option_map JObj (InsertBatchBlock.properties b));
            (u "children",
             option_map (fun cs => JArr (map batch_child_json cs))
                        (InsertBatchBlock.children b)) ]).

(** The methods of the client that a tool calls; [getPageProperties],
    [getPagesFromNamespace], [prependBlockInPage], [removeBlockProperty]
    and [showMsg] are called by none and are left out. *)
Section Client.

Variable this : LogseqClient.
Variable remote : Remote.

(** *** Page operations *)

Definition getAllPages : M (list PageEntity) :=
  call this (u "logseq.Editor.getAllPages") [] (on_getAllPages remote).

Definition getPage (nameOrId : jsstring) (opts : option jsobject)
  : M (option PageEntity) :=
  call this (u "logseq.Editor.getPage")
       [JStr nameOrId; opts_or_empty opts] (on_getPage remote).

Definition getPageBlocksTree (pageName : jsstring)
  : M (option (list BlockEntity)) :=
  call this (u "logseq.Editor.getPageBlocksTree")
       [JStr pageName] (on_getPageBlocksTree remote).

Definition getPageLinkedReferences (pageName : jsstring)
  : M (option (list LinkedReference)) :=
  call this (u "logseq.Editor.getPageLinkedReferences")
       [JStr pageName] (on_getPageLinkedReferences remote).

Definition createPage (name : jsstring) (properties : option jsobject)
  (opts : option jsobject) : M PageEntity :=
  call this (u "logseq.Editor.createPage")
       [ JStr name;
         opts_or_empty properties;
         JObj (spread [(u "redirect", JBool false)]
                      (match opts with Some o => o | None => [] end)) ]
       (on_createPage remote).

Definition deletePage (name : jsstring) : M unit :=
  call this (u "logseq.Editor.deletePage") [JStr name] (on_deletePage remote).

Definition renamePage (oldName newName : jsstring) : M unit :=
  call this (u "logseq.Editor.renamePage")
       [JStr oldName; JStr newName] (on_renamePage remote).

(** *** Block operations *)

Definition getBlock (idOrUuid : jsstring) (opts : option jsobject)
  : M (option BlockEntity) :=
  call this (u "logseq.Editor.getBlock")
       [JStr idOrUuid; opts_or_empty opts] (on_getBlock remote).

Definition insertBlock (srcBlock content : jsstring) (opts : option jsobject)
  : M BlockEntity :=
  call this (u "logseq.Editor.insertBlock")
       [JStr srcBlock; JStr content; opts_or_empty opts] (on_insertBlock remote).

Definition insertBatchBlock (srcBlock : jsstring)
  (batch : list InsertBatchBlock.Block) (opts : option jsobject)
  : M (list BlockEntity) :=
  call this (u "logseq.Editor.insertBatchBlock")
       [JStr srcBlock; JArr (map batch_block_json batch); opts_or_empty opts]
       (on_insertBatchBlock remote).

Definition updateBlock (srcBlock content : jsstring) (opts : option jsobject)
  : M unit :=
  call this (u "logseq.Editor.updateBlock")
       [JStr srcBlock; JStr content; opts_or_empty opts] (on_updateBlock remote).

Definition removeBlock (srcBlock : jsstring) : M unit :=
  call this (u "logseq.Editor.removeBlock") [JStr srcBlock] (on_removeBlock remote).

Definition moveBlock (srcBlock targetBlock : jsstring) (opts : option jsobject)
  : M unit :=
  call this (u "logseq.Editor.moveBlock")
       [JStr srcBlock; JStr targetBlock; opts_or_empty opts] (on_moveBlock remote).

Definition appendBlockInPage (page content : jsstring) (opts : option jsobject)
  : M BlockEntity :=
  call this (u "logseq.Editor.appendBlockInPage")
       [JStr page; JStr content; opts_or_empty opts] (on_appendBlockInPage remote).

Definition getBlockProperties (blockIdOrUuid : jsstring) : M jsobject :=
  call this (u "logseq.Editor.getBlockProperties")
       [JStr blockIdOrUuid] (on_getBlockProperties remote).

Definition upsertBlockProperty (blockIdOrUuid key : jsstring) (value : json)
  : M unit :=
  call this (u "logseq.Editor.upsertBlockProperty")
       [JStr blockIdOrUuid; JStr key; value] (on_upsertBlockProperty remote).

(** *** Journal, tag, search and graph operations *)

Definition createJournalPage (date : jsstring) : M PageEntity :=
  call this (u "logseq.Editor.createJournalPage")
       [JStr date] (on_createJournalPage remote).

Definition getAllTags : M (option (list PageEntity)) :=
  call this (u "logseq.Editor.getAllTags") [] (on_getAllTags remote).

Definition search (query : jsstring) : M SearchResult :=
  call this (u "logseq.App.search") [JStr query] (on_search remote).

Definition getCurrentGraph : M (option Graph) :=
  call this (u "logseq.App.getCurrentGraph") [] (on_getCurrentGraph remote).

End Client.

(** ** The tool handlers *)

(** [s.startsWith(prefix)] *)
Definition startsWith (s prefix : jsstring) : bool :=
  jsstring_eqb (firstn (List.length prefix) s) prefix.

(** [value ?? ""] *)
Definition or_empty (s : option jsstring) : jsstring :=
  match s with Some v => v | None => [] end.

(** [`${array.length}`] *)
Definition length_string {A : Type} (l : list A) : jsstring :=
  Number_toString (Z.of_nat (List.length l)).

(** [server.registerTool(name, { inputSchema, ... }, handler)] *)
Record Tool : Type := registerTool {
  tool_name : jsstring;
  tool_params : Type;
  inputSchema : ZodType tool_params;
  handler : tool_params -> M ToolResult
}.
Arguments registerTool tool_name {tool_params} inputSchema handler.

Section Tools.

Variable client : LogseqClient.
Variable remote : Remote.

(** Built-ins of the platform, left uninterpreted:
    [JSON.stringify(value, null, 2)], [JSON.stringify(value)] and
    [String.prototype.toLowerCase]. *)
Variable JSON_stringify_indented : forall T : Type, T -> jsstring.
Variable JSON_stringify : forall T : Type, T -> jsstring.
Variable toLowerCase : jsstring -> jsstring.

(** *** tools/page-tools.ts *)

(** logseq_list_pages: the two filters. *)
Definition filterPages (params : ListPages.Params) (pages : list PageEntity)
  : list PageEntity :=
  let pages :=
    if ListPages.journal_only params then filter page_journal pages else pages in
  match ListPages.namespace params with
  | Some namespace =>
      if truthy namespace then
        let prefix := toLowerCase namespace in
        filter (fun p => startsWith (toLowerCase (or_empty (page_name p)))
                                    (prefix ++ u "/"))
               pages
      else pages
  | None => pages
  end.

(** logseq_list_pages: [lines], from the filtered pages. *)
Definition listPagesLines (params : ListPages.Params) (pages : list PageEntity)
  : list jsstring :=
  let total := Z.of_nat (List.length pages) in
  let sliced :=
    slice pages (ListPages.offset params)
          (ListPages.offset params + ListPages.limit params) in
  let hasMore := ListPages.offset params + ListPages.limit params <? total in
  let lines :=
    [ u "**Pages** (" ++ length_string sliced ++ u " of " ++
      Number_toString total ++ u ")";
      [] ] ++ map formatPageSummary sliced in
  if hasMore then
    lines ++
    [ [];
      u "_More pages available. Use offset=" ++
      Number_toString (ListPages.offset params + ListPages.limit params) ++
      u " to see next batch._" ]
  else lines.

Definition logseq_list_pages (params : ListPages.Params) : M ToolResult :=
  try_catch
    (let* pages := getAllPages client remote in
     let pages := filterPages params pages in
     ret (textResponse (join LF (listPagesLines params pages))))
    (fun error =>
       ret (errorResponse
              (u "Failed to list pages: " ++ extractErrorMessage error ++ u ". " ++
               u "Ensure Logseq is running with HTTP APIs enabled."))).

Definition logseq_get_page (params : GetPage.Params) : M ToolResult :=
  try_catch
    (let* page :=
       getPage client remote (GetPage.name params)
         (Some [(u "includeChildren", JBool (GetPage.include_children params))]) in
     match page with
     | None =>
         ret (errorResponse
                (u "Page '" ++ GetPage.name params ++
                 u "' not found. Use logseq_list_pages to see available pages."))
     | Some page => ret (textResponse (JSON_stringify_indented _ page))
     end)
    (fun error =>
       ret (errorResponse (u "Failed to get page: " ++ extractErrorMessage error))).

Definition logseq_get_page_content (params : GetPageContent.Params)
  : M ToolResult :=
  try_catch
    (let* blocks := getPageBlocksTree client remote (GetPageContent.name params) in
     match blocks with
     | Some (block :: others) =>
         let rendered := renderBlockTree (block :: others) 0 in
         ret (textResponse
                (u "# " ++ GetPageContent.name params ++ LF ++ LF ++ rendered))
     | _ =>
         ret (textResponse
                (u "Page '" ++ GetPageContent.name params ++
                 u "' is empty or has no blocks."))
     end)
    (fun error =>
       ret (errorResponse
              (u "Failed to get page content: " ++ extractErrorMessage error))).

Definition logseq_create_page (params : CreatePage.Params) : M ToolResult :=
  try_catch
    (let* page :=
       createPage client remote (CreatePage.name params)
         (CreatePage.properties params)
         (Some [ (u "format", JStr (CreatePage.format params));
                 (u "journal", JBool (CreatePage.journal params));
                 (u "redirect", JBool false) ]) in
     (* Append initial content if provided *)
     (match CreatePage.content params with
      | Some content =>
          if truthy content then
            (appendBlockInPage client remote (CreatePage.name params) content None ;;
             ret tt)
          else ret tt
      | None => ret tt
      end) ;;
     ret (textResponse
            (u "Page '" ++ CreatePage.name params ++ u "' created successfully." ++
             LF ++ LF ++ JSON_stringify_indented _ page)))
    (fun error =>
       ret (errorResponse
              (u "Failed to create page: " ++ extractErrorMessage error))).

Definition logseq_delete_page (params : DeletePage.Params) : M ToolResult :=
  try_catch
    (deletePage client remote (DeletePage.name params) ;;
     ret (textResponse
            (u "Page '" ++ DeletePage.name params ++ u "' deleted successfully.")))
    (fun error =>
       ret (errorResponse
              (u "Failed to delete page: " ++ extractErrorMessage error))).

Definition logseq_rename_page (params : RenamePage.Params) : M ToolResult :=
  try_catch
    (renamePage client remote (RenamePage.old_name params)
                (RenamePage.new_name params) ;;
     ret (textResponse
            (u "Page renamed from '" ++ RenamePage.old_name params ++ u "' to '" ++
             RenamePage.new_name params ++ u "'.")))
    (fun error =>
       ret (errorResponse
              (u "Failed to rename page: " ++ extractErrorMessage error))).

Definition logseq_get_page_linked_references
  (params : GetPageLinkedReferences.Params) : M ToolResult :=
  try_catch
    (let* refs :=
       getPageLinkedReferences client remote (GetPageLinkedReferences.name params) in
     match refs with
     | Some (ref :: others) =>
         let refs := ref :: others in
         let lines :=
           [ u "**Linked references for '" ++ GetPageLinkedReferences.name params ++
             u "'** (" ++ length_string refs ++ u " pages)" ++ LF ] ++
           flat_map
             (fun '(page, blocks) =>
                [ u "### " ++
                  template_string (or_else (page_originalName page) (page_name page)) ] ++
                map (fun block =>
                       u "  - " ++
                       template_string (option_map trim (block_content block)))
                    blocks ++
                [ [] ])
             refs in
         ret (textResponse (join LF lines))
     | _ =>
         ret (textResponse
                (u "No linked references found for page '" ++
                 GetPageLinkedReferences.name params ++ u "'."))
     end)
    (fun error =>
       ret (errorResponse
              (u "Failed to get linked references: " ++ extractErrorMessage error))).

(** *** tools/block-tools.ts *)

Definition logseq_get_block (params : GetBlock.Params) : M ToolResult :=
  try_catch
    (let* block :=
       getBlock client remote (GetBlock.id params)
         (Some [(u "includeChildren", JBool (GetBlock.include_children params))]) in
     match block with
     | None =>
         ret (errorResponse
                (u "Block '" ++ GetBlock.id params ++
                 u "' not found. Verify the UUID is correct."))
     | Some block =>
         if GetBlock.include_children params &&
            match block_children block with
            | Some (_ :: _) => true
            | _ => false
            end
         then
           let tree := renderBlockTree [block] 0 in
           ret (textResponse
                  (u "**Block " ++ block_uuid block ++ u "**" ++ LF ++ LF ++ tree ++
                   LF ++ LF ++ u "---" ++ LF ++ u "Raw:" ++ LF ++
                   JSON_stringify_indented _ block))
         else ret (textResponse (JSON_stringify_indented _ block))
     end)
    (fun error =>
       ret (errorResponse (u "Failed to get block: " ++ extractErrorMessage error))).

Definition logseq_insert_block (params : InsertBlock.Params) : M ToolResult :=
  try_catch
    (let* block :=
       insertBlock client remote (InsertBlock.page_or_block params)
         (InsertBlock.content params)
         (Some (object_literal
                  [ (u "sibling", Some (JBool (InsertBlock.sibling params)));
                    (u "before", Some (JBool (InsertBlock.before params)));
                    (u "properties",
                     option_map JObj (InsertBlock.properties params)) ])) in
     ret (textResponse
            (u "Block inserted successfully." ++ LF ++ LF ++
             JSON_stringify_indented _ block)))
    (fun error =>
       ret (errorResponse
              (u "Failed to insert block: " ++ extractErrorMessage error))).

Definition logseq_append_block (params : AppendBlock.Params) : M ToolResult :=
  try_catch
    (let* block :=
       appendBlockInPage client remote (AppendBlock.page params)
         (AppendBlock.content params)
         (Some (object_literal
                  [ (u "properties",
                     option_map JObj (AppendBlock.properties params)) ])) in
     ret (textResponse
            (u "Block appended to '" ++ AppendBlock.page params ++ u "'." ++
             LF ++ LF ++ JSON_stringify_indented _ block)))
    (fun error =>
       ret (errorResponse
              (u "Failed to append block: " ++ extractErrorMessage error))).

Definition logseq_update_block (params : UpdateBlock.Params) : M ToolResult :=
  try_catch
    (updateBlock client remote (UpdateBlock.id params) (UpdateBlock.content params)
       (Some (object_literal
                [ (u "properties",
                   option_map JObj (UpdateBlock.properties params)) ])) ;;
     ret (textResponse
            (u "Block '" ++ UpdateBlock.id params ++ u "' updated successfully.")))
    (fun error =>
       ret (errorResponse
              (u "Failed to update block: " ++ extractErrorMessage error))).

Definition logseq_remove_block (params : RemoveBlock.Params) : M ToolResult :=
  try_catch
    (removeBlock client remote (RemoveBlock.id params) ;;
     ret (textResponse
            (u "Block '" ++ RemoveBlock.id params ++ u "' removed successfully.")))
    (fun error =>
       ret (errorResponse
              (u "Failed to remove block: " ++ extractErrorMessage error))).

Definition logseq_move_block (params : MoveBlock.Params) : M ToolResult :=
  try_catch
    (moveBlock client remote (MoveBlock.src_id params) (MoveBlock.target_id params)
       (Some [ (u "before", JBool (MoveBlock.before params));
               (u "children", JBool (MoveBlock.children params)) ]) ;;
     ret (textResponse
            (u "Block '" ++ MoveBlock.src_id params ++ u "' moved to '" ++
             MoveBlock.target_id params ++ u "'.")))
    (fun error =>
       ret (errorResponse
              (u "Failed to move block: " ++ extractErrorMessage error))).

Definition logseq_insert_batch_blocks (params : InsertBatchBlock.Params)
  : M ToolResult :=
  try_catch
    (let* result :=
       insertBatchBlock client remote (InsertBatchBlock.page_or_block params)
         (InsertBatchBlock.blocks params)
         (Some [(u "sibling", JBool (InsertBatchBlock.sibling params))]) in
     ret (textResponse
            (length_string result ++ u " blocks inserted successfully." ++
             LF ++ LF ++ JSON_stringify_indented _ result)))
    (fun error =>
       ret (errorResponse
              (u "Failed to insert batch blocks: " ++ extractErrorMessage error))).

Definition logseq_block_property (params : BlockProperty.Params) : M ToolResult :=
  try_catch
    (match BlockProperty.value params with
     | Some value =>
         upsertBlockProperty client remote (BlockProperty.id params)
           (BlockProperty.key params) value ;;
         ret (textResponse
                (u "Property '" ++ BlockProperty.key params ++ u "' set on block '" ++
                 BlockProperty.id params ++ u "'."))
     | None =>
         let* properties := getBlockProperties client remote (BlockProperty.id params) in
         ret (textResponse (JSON_stringify_indented _ properties))
     end)
    (fun error =>
       ret (errorResponse
              (u "Failed to access block property: " ++ extractErrorMessage error))).

(** *** tools/search-graph-tools.ts *)

Definition logseq_search (params : Search.Params) : M ToolResult :=
  try_catch
    (let* result := search client remote (Search.query params) in
     let lines :=
       [ u "**Search results for '" ++ Search.query params ++ u "'**" ++ LF ] in
     (* Pages *)
     let pages := match result_pages result with Some ps => ps | None => [] end in
     let lines :=
       match pages with
       | _ :: _ =>
           lines ++ [ u "### Pages (" ++ length_string pages ++ u ")" ] ++
           map (fun page => u "- " ++ page) pages ++ [ [] ]
       | [] => lines
       end in
     (* Blocks *)
     let blocks := match result_blocks result with Some bs => bs | None => [] end in
     let lines :=
       match blocks with
       | _ :: _ =>
           lines ++ [ u "### Blocks (" ++ length_string blocks ++ u ")" ] ++
           map (fun block => u "- " ++ JSON_stringify _ block) blocks ++ [ [] ]
       | [] => lines
       end in
     let lines :=
       match pages, blocks with
       | [], [] =>
           lines ++
           [ u "No results found for '" ++ Search.query params ++
             u "'. Try broader search terms." ]
       | _, _ => lines
       end in
     ret (textResponse (join LF lines)))
    (fun error =>
       ret (errorResponse (u "Search failed: " ++ extractErrorMessage error))).

Definition logseq_create_journal (params : CreateJournal.Params) : M ToolResult :=
  try_catch
    (let* page := createJournalPage client remote (CreateJournal.date params) in
     ret (textResponse
            (u "Journal page created for '" ++ CreateJournal.date params ++ u "'." ++
             LF ++ LF ++ JSON_stringify_indented _ page)))
    (fun error =>
       ret (errorResponse
              (u "Failed to create journal page: " ++ extractErrorMessage error))).

Definition logseq_get_graph_info (_ : unit) : M ToolResult :=
  try_catch
    (let* graph := getCurrentGraph client remote in
     match graph with
     | None => ret (errorResponse (u "No graph is currently open in Logseq."))
     | Some graph => ret (textResponse (JSON_stringify_indented _ graph))
     end)
    (fun error =>
       ret (errorResponse
              (u "Failed to get graph info: " ++ extractErrorMessage error))).

Definition logseq_get_all_tags (_ : unit) : M ToolResult :=
  try_catch
    (let* tags := getAllTags client remote in
     match tags with
     | Some (tag :: others) =>
         let tags := tag :: others in
         let lines :=
           [ u "**Tags** (" ++ length_string tags ++ u ")" ++ LF ] ++
           map (fun t =>
                  u "- " ++
                  template_string (or_else (page_originalName t) (page_name t)) ++
                  u " (uuid: " ++ page_uuid t ++ u ")")
               tags in
         ret (textResponse (join LF lines))
     | _ => ret (textResponse (u "No tags found in the current graph."))
     end)
    (fun error =>
       ret (errorResponse (u "Failed to get tags: " ++ extractErrorMessage error))).

(** *** index.ts: the registered tools *)

Definition registerPageTools : list Tool :=
  [ registerTool (u "logseq_list_pages") ListPagesSchema logseq_list_pages;
    registerTool (u "logseq_get_page") GetPageSchema logseq_get_page;
    registerTool (u "logseq_get_page_content") GetPageContentSchema
                 logseq_get_page_content;
    registerTool (u "logseq_create_page") CreatePageSchema logseq_create_page;
    registerTool (u "logseq_delete_page") DeletePageSchema logseq_delete_page;
    registerTool (u "logseq_rename_page") RenamePageSchema logseq_rename_page;
    registerTool (u "logseq_get_page_linked_references")
                 GetPageLinkedReferencesSchema logseq_get_page_linked_references ].

Definition registerBlockTools : list Tool :=
  [ registerTool (u "logseq_get_block") GetBlockSchema logseq_get_block;
    registerTool (u "logseq_insert_block") InsertBlockSchema logseq_insert_block;
    registerTool (u "logseq_append_block") AppendBlockSchema logseq_append_block;
    registerTool (u "logseq_update_block") UpdateBlockSchema logseq_update_block;
    registerTool (u "logseq_remove_block") RemoveBlockSchema logseq_remove_block;
    registerTool (u "logseq_move_block") MoveBlockSchema logseq_move_block;
    registerTool (u "logseq_insert_batch_blocks") InsertBatchBlockSchema
                 logseq_insert_batch_blocks;
    registerTool (u "logseq_block_property") BlockPropertySchema
                 logseq_block_property ].

Definition registerSearchTools : list Tool :=
  [ registerTool (u "logseq_search") SearchSchema logseq_search ].

Definition registerJournalTools : list Tool :=
  [ registerTool (u "logseq_create_journal") CreateJournalSchema
                 logseq_create_journal ].

Definition registerGraphTools : list Tool :=
  [ registerTool (u "logseq_get_graph_info") GetGraphInfoSchema
                 logseq_get_graph_info;
    registerTool (u "logseq_get_all_tags") GetAllTagsSchema logseq_get_all_tags ].

(** Register all tool groups *)
Definition tools : list Tool :=
  registerPageTools ++ registerBlockTools ++ registerSearchTools ++
  registerJournalTools ++ registerGraphTools.

End Tools.

(** Modelled from the spec: the wording of one violated constraint in the
    message of a validation failure, which the protocol library composes
    and the repository does not contain ("reported with the specific
    violated constraint", section 7). *)
Definition describeIssue (i : ZodIssue) : jsstring :=
  (match issue_code i with
   | invalid_type => u "invalid type"
   | too_small => u "too small"
   | too_big => u "too big"
   | invalid_enum_value => u "invalid enum value"
   | unrecognized_keys extra =>
       u "unrecognized key(s): " ++ join (u ", ") extra
   end) ++
  u " at /" ++
  join (u "/")
       (map (fun p => match p with
                      | PathKey k => k
                      | PathIndex i => Number_toString (Z.of_nat i)
                      end)
            (issue_path i)).

(** Modelled from the spec: the human-readable message of a validation
    failure (section 7), composed by the protocol library. *)
Definition validationMessage (t : Tool) (issues : list ZodIssue) : jsstring :=
  u "Invalid arguments for tool " ++ tool_name t ++ u ": " ++
  join (u "; ") (map describeIssue issues).

(** Modelled from the spec: the dispatch of a tool call, which the
    protocol library does and the repository does not contain.  The
    arguments are parsed with the tool's input schema; a validation
    failure is caught before any network call and surfaced as a marked
    failure result (sections 4.1 and 7); otherwise the handler runs on the
    parsed parameters. *)
Definition callTool (t : Tool) (arguments : option json) : M ToolResult :=
  match parse (inputSchema t) arguments with
  | Failure issues => ret (errorResponse (validationMessage t issues))
  | Success params => handler t params
  end.

(** The POST requests a computation sends, started with none sent. *)
Definition posts {A : Type} (m : M A) : list Posted := snd (m []).

(** *** The annotations of the registered tools

    The [annotations] each [registerTool] call gives, by tool name, in the
    order of registration. *)

Record Annotations : Type := mkAnnotations {
  readOnlyHint : bool;
  destructiveHint : bool;
  idempotentHint : bool;
  openWorldHint : bool
}.

Definition annotations : list (jsstring * Annotations) :=
  [ (u "logseq_list_pages", mkAnnotations true false true false);
    (u "logseq_get_page", mkAnnotations true false true false);
    (u "logseq_get_page_content", mkAnnotations true false true false);
    (u "logseq_create_page", mkAnnotations false false false false);
    (u "logseq_delete_page", mkAnnotations false true false false);
    (u "logseq_rename_page", mkAnnotations false false true false);
    (u "logseq_get_page_linked_references", mkAnnotations true false true false);
    (u "logseq_get_block", mkAnnotations true false true false);
    (u "logseq_insert_block", mkAnnotations false false false false);
    (u "logseq_append_block", mkAnnotations false false false false);
    (u "logseq_update_block", mkAnnotations false false true false);
    (u "logseq_remove_block", mkAnnotations false true false false);
    (u "logseq_move_block", mkAnnotations false false true false);
    (u "logseq_insert_batch_blocks", mkAnnotations false false false false);
    (u "logseq_block_property", mkAnnotations false false true false);
    (u "logseq_search", mkAnnotations true false true false);
    (u "logseq_create_journal", mkAnnotations false false true false);
    (u "logseq_get_graph_info", mkAnnotations true false true false);
    (u "logseq_get_all_tags", mkAnnotations true false true false) ].

(** The annotations registered under a tool name. *)
Fixpoint annotationsOf (name : jsstring) (table : list (jsstring * Annotations))
  : option Annotations :=
  match table with
  | [] => None
  | (n, a) :: rest => if jsstring_eqb n name then Some a else annotationsOf name rest
  end.

(** The remote methods that only read the graph. *)
Definition queryMethods : list jsstring :=
  [ u "logseq.Editor.getAllPages"; u "logseq.Editor.getPage";
    u "logseq.Editor.getPageBlocksTree"; u "logseq.Editor.getPageLinkedReferences";
    u "logseq.Editor.getBlock"; u "logseq.Editor.getBlockProperties";
    u "logseq.Editor.getAllTags"; u "logseq.App.search";
    u "logseq.App.getCurrentGraph" ].

(** ** index.ts: configuration and start

    [process.env], what the module does with it when it is loaded, and the
    transport it ends up serving on.  [Http port] carries the string that
    is handed to [parseInt]. *)

Record ProcessEnv : Type := mkEnv {
  LOGSEQ_API_TOKEN : option jsstring;
  LOGSEQ_API_URL : option jsstring;
  TRANSPORT : option jsstring;
  PORT : option jsstring
}.

Inductive Transport : Type :=
| Stdio
| Http (port : jsstring).

Inductive Started : Type :=
| Exit (code : Z)
| Serving (client : LogseqClient) (transport : Transport).

(** [value || fallback] for an environment variable. *)
Definition env_or (value : option jsstring) (fallback : jsstring) : jsstring :=
  match value with
  | Some v => if truthy v then v else fallback
  | None => fallback
  end.

Definition main (env : ProcessEnv) : Started :=
  match LOGSEQ_API_TOKEN env with
  | Some apiToken =>
      if truthy apiToken then
        let client := new_LogseqClient apiToken (LOGSEQ_API_URL env) in
        let transport := env_or (TRANSPORT env) (u "stdio") in
        if jsstring_eqb transport (u "http")
        then Serving client (Http (env_or (PORT env) (u "3000")))
        else Serving client Stdio
      else Exit 1
  | None => Exit 1
  end.

(** ** What the specification says, to compare the code with *)

(** The outline of section 4.3, in the specification's words: one line per
    node, indented two spaces per depth level; a node with empty content
    has no line; the children of a node come one level deeper, whether or
    not the node has a line.  Content is taken trimmed, as the code does. *)
Fixpoint outlineOf (depth : nat) (block : BlockEntity) {struct block}
  : list jsstring :=
  (match option_map trim (block_content block) with
   | Some c => if truthy c then [str_repeat (u "  ") depth ++ u "- " ++ c] else []
   | None => []
   end) ++
  (match block_children block with
   | Some children => flat_map (outlineOf (S depth)) children
   | None => []
   end).

Definition outline (blocks : list BlockEntity) (depth : nat) : list jsstring :=
  flat_map (outlineOf depth) blocks.

(** No block of the subtree has a line: every content in it is empty. *)
Fixpoint silent (block : BlockEntity) {struct block} : bool :=
  (match option_map trim (block_content block) with
   | Some c => negb (truthy c)
   | None => true
   end) &&
  (match block_children block with
   | Some children => forallb silent children
   | None => true
   end).

(** No block of the subtree has children, one or more, that are all silent. *)
Fixpoint fertile (block : BlockEntity) {struct block} : bool :=
  match block_children block with
  | Some (child :: others) =>
      negb (forallb silent (child :: others)) &&
      forallb fertile (child :: others)
  | _ => true
  end.

(** The block with another content. *)
Definition with_content (content : option jsstring) (b : BlockEntity)
  : BlockEntity :=
  match b with
  | mkBlock id uuid _ lft parent page properties children =>
      mkBlock id uuid content lft parent page properties children
  end.

(** Content that is absent or only white space. *)
Definition blank (content : option jsstring) : bool :=
  match content with
  | Some c => forallb isWhiteSpace c
  | None => true
  end.

(** What a block's loop turn pushes for its children. *)
Definition childrenLines (depth : nat) (block : BlockEntity) : list jsstring :=
  match block_children block with
  | Some (child :: others) => [renderBlockTree (child :: others) (S depth)]
  | _ => []
  end.

(** A field a shape declares. *)
Inductive HasField : forall R : Type, ZodShape R -> jsstring ->
                     forall A : Type, ZodType A -> Prop :=
| has_last (A R : Type) (fields : ZodShape (A -> R)) key (field : ZodType A) :
    HasField R (ShapeSnoc fields key field) key A field
| has_earlier (A R B : Type) (fields : ZodShape (A -> R)) key (field : ZodType A)
              k (f : ZodType B) :
    HasField (A -> R) fields k B f ->
    HasField R (ShapeSnoc fields key field) k B f.
Arguments HasField {R} shape key {A} field.

(** A schema that does not take [undefined]: its field is required. *)
Definition required {A : Type} (schema : ZodType A) : bool :=
  match schema with
  | ZodUnknown | ZodOptional _ | ZodDefault _ _ => false
  | _ => true
  end.

(** An input breaks a constraint its schema declares (section 4.1): a
    required field is missing, a field has the wrong type or is out of
    range, or a field is not in the recognized set. *)
Inductive Violates : forall A : Type, ZodType A -> option json -> Prop :=
| missing_required (A : Type) (schema : ZodType A) :
    required schema = true -> Violates A schema None
| string_expected lo hi v :
    (forall s, v <> JStr s) -> Violates _ (ZodString lo hi) (Some v)
| string_too_short lo hi s :
    str_length s < lo -> Violates _ (ZodString (Some lo) hi) (Some (JStr s))
| string_too_long lo hi s :
    hi < str_length s -> Violates _ (ZodString lo (Some hi)) (Some (JStr s))
| integer_expected lo hi v :
    (forall n, v <> num n) -> Violates _ (ZodInt lo hi) (Some v)
| integer_too_small lo hi n :
    n < lo -> Violates _ (ZodInt (Some lo) hi) (Some (num n))
| integer_too_big lo hi n :
    hi < n -> Violates _ (ZodInt lo (Some hi)) (Some (num n))
| boolean_expected v :
    (forall b, v <> JBool b) -> Violates _ ZodBoolean (Some v)
| enum_expected values v :
    (forall s, In s values -> v <> JStr s) -> Violates _ (ZodEnum values) (Some v)
| record_expected v :
    (forall fields, v <> JObj fields) -> Violates _ ZodRecord (Some v)
| array_expected (A : Type) (element : ZodType A) lo v :
    (forall items, v <> JArr items) -> Violates _ (ZodArray element lo) (Some v)
| array_too_short (A : Type) (element : ZodType A) lo items :
    Z.of_nat (List.length items) < lo ->
    Violates _ (ZodArray element (Some lo)) (Some (JArr items))
| array_item (A : Type) (element : ZodType A) lo items item :
    In item items -> Violates A element (Some item) ->
    Violates _ (ZodArray element lo) (Some (JArr items))
| optional_value (A : Type) (inner : ZodType A) v :
    Violates A inner (Some v) -> Violates _ (ZodOptional inner) (Some v)
| default_value (A : Type) (inner : ZodType A) d v :
    Violates A inner (Some v) -> Violates _ (ZodDefault inner d) (Some v)
| object_expected (R : Type) (shape : ZodShape R) mode v :
    (forall fields, v <> JObj fields) -> Violates _ (ZodObject shape mode) (Some v)
| object_field (R : Type) (shape : ZodShape R) mode fields key
               (A : Type) (field : ZodType A) :
    HasField shape key field -> Violates A field (get_prop key fields) ->
    Violates R (ZodObject shape mode) (Some (JObj fields))
| object_unrecognized (R : Type) (shape : ZodShape R) fields key :
    In key (keys fields) -> ~ In key (shape_keys shape) ->
    Violates R (ZodObject shape strict) (Some (JObj fields)).
Arguments Violates {A} schema input.

(** A valid input of logseq_list_pages, as the tool documents its
    arguments: limit 1-500, offset from 0, journal_only a boolean,
    namespace a string, each of them optional, and nothing else. *)
Record ValidListPagesInput (fields : jsobject) : Prop := {
  recognized_only :
    forall key, In key (keys fields) ->
                In key [u "limit"; u "offset"; u "journal_only"; u "namespace"];
  valid_limit :
    forall v, get_prop (u "limit") fields = Some v ->
              exists n, v = num n /\ 1 <= n <= 500;
  valid_offset :
    forall v, get_prop (u "offset") fields = Some v ->
              exists n, v = num n /\ 0 <= n;
  valid_journal_only :
    forall v, get_prop (u "journal_only") fields = Some v -> exists b, v = JBool b;
  valid_namespace :
    forall v, get_prop (u "namespace") fields = Some v -> exists s, v = JStr s
}.

(** A remote failure of one exchange, in the kinds of section 7: no answer
    before the timeout, a network error, a status outside 2xx, or a reply
    that does not parse (or does not arrive in full before the timeout). *)
Definition remoteFailure {T : Type} (x : Exchange T) : Prop :=
  match x with
  | Unreachable _ _ => True
  | Replies head_at status _ body_at body =>
      within head_at REQUEST_TIMEOUT_MS = false \/
      ~ (200 <= status <= 299) \/
      within body_at REQUEST_TIMEOUT_MS = false \/
      (exists e, body_json body = inl e)
  end.

(** A parse that accepts. *)
Definition succeeds {A : Type} (r : ParseResult A) : bool :=
  match r with Success _ => true | Failure _ => false end.

(** Every default a schema declares is a value its inner schema accepts. *)
Fixpoint defaults_valid {A : Type} (schema : ZodType A) {struct schema} : bool :=
  match schema with
  | ZodArray element _ => defaults_valid element
  | ZodOptional inner => defaults_valid inner
  | ZodDefault inner defaultValue =>
      defaults_valid inner && succeeds (parse inner (Some defaultValue))
  | ZodObject shape _ => shape_defaults_valid shape
  | _ => true
  end
with shape_defaults_valid {R : Type} (shape : ZodShape R) {struct shape} : bool :=
  match shape with
  | ShapeNil _ => true
  | ShapeSnoc fields _ field => shape_defaults_valid fields && defaults_valid field
  end.

(** Two lists of lines that join to the same text wherever they stand. *)
Definition sameText (a b : list jsstring) : Prop :=
  forall before after : list jsstring,
    join LF (before ++ a ++ after) = join LF (before ++ b ++ after).

(** A parse that ends in a validation failure. *)
Definition fails {A : Type} (r : ParseResult A) : Prop :=
  exists issues, r = Failure issues.

(** The result is a marked failure whose message carries the message of
    the thrown value [e]. *)
Definition reported (result : ToolResult) (e : JsExn) : Prop :=
  exists prefix suffix,
    prefix <> [] /\
    result = errorResponse (prefix ++ extractErrorMessage e ++ suffix).

(** ** Sample values *)

Definition sampleClient : LogseqClient := new_LogseqClient (u "secret") None.

Definition samplePage : PageEntity :=
  mkPage 7 (u "6f1a") (Some (u "projects/alpha")) (Some (u "Projects/Alpha"))
         false None None None.

Definition leaf (content : string) : BlockEntity :=
  mkBlock 1 (u "b-1") (Some (u content)) 0 0 0 None None.

Definition node (content : string) (children : list BlockEntity) : BlockEntity :=
  mkBlock 1 (u "b-1") (Some (u content)) 0 0 0 None (Some children).

(** A text one character over the limit. *)
Definition longText : jsstring := repeat 97%N (Z.to_nat (CHARACTER_LIMIT + 1)).

(** A reply with status 200 whose body parses to [v], after 5 ms. *)
Definition prompt {T : Type} (v : T) : Exchange T :=
  Replies (At 5) 200 (u "OK") (At 6) (mkBody (u "null") (inr v)).

(** No reply at all. *)
Definition silence {T : Type} (v : T) : Exchange T :=
  Replies Never 200 (u "OK") Never (mkBody (u "null") (inr v)).

Definition remoteOf (wire : forall T : Type, T -> Exchange T) : Remote :=
  {| on_getAllPages := wire _ [samplePage];
     on_getPage := wire _ (Some samplePage);
     on_getPageBlocksTree := wire _ (Some [leaf "A"]);
     on_getPageLinkedReferences := wire _ (Some [(samplePage, [leaf "A"])]);
     on_createPage := wire _ samplePage;
     on_deletePage := wire _ tt;
     on_renamePage := wire _ tt;
     on_getBlock := wire _ (Some (leaf "A"));
     on_insertBlock := wire _ (leaf "A");
     on_insertBatchBlock := wire _ [leaf "A"];
     on_updateBlock := wire _ tt;
     on_removeBlock := wire _ tt;
     on_moveBlock := wire _ tt;
     on_appendBlockInPage := wire _ (leaf "A");
     on_getBlockProperties := wire _ [];
     on_upsertBlockProperty := wire _ tt;
     on_createJournalPage := wire _ samplePage;
     on_getAllTags := wire _ (Some [samplePage]);
     on_search := wire _ (mkSearchResult None (Some [u "alpha"]));
     on_getCurrentGraph := wire _ (Some (mkGraph (u "g") (u "/g") (u "logseq://g"))) |}.

Definition sampleStringify : forall T : Type, T -> jsstring := fun _ _ => u "{}".

Definition sampleToLowerCase : jsstring -> jsstring :=
  map (fun c => if ((65 <=? c) && (c <=? 90))%N then (c + 32)%N else c).

Definition promptRemote : Remote := remoteOf (@prompt).

(** The registered tools logseq_list_pages and logseq_create_page, on the
    sample client and a remote. *)
Definition listPagesTool (remote : Remote) : Tool :=
  registerTool (u "logseq_list_pages") ListPagesSchema
               (logseq_list_pages sampleClient remote sampleToLowerCase).

Definition createPageTool (remote : Remote) : Tool :=
  registerTool (u "logseq_create_page") CreatePageSchema
               (logseq_create_page sampleClient remote sampleStringify).


Definition pageWithContentParams : CreatePage.Params :=
  {| CreatePage.name := u "Inbox"; CreatePage.content := Some (u "first note");
     CreatePage.properties := None; CreatePage.format := u "markdown";
     CreatePage.journal := false |}.

Definition defaultListParams : ListPages.Params :=
  {| ListPages.limit := 50; ListPages.offset := 0;
     ListPages.journal_only := false; ListPages.namespace := None |}.

Definition firstOfTwoParams : ListPages.Params :=
  {| ListPages.limit := 1; ListPages.offset := 0;
     ListPages.journal_only := false; ListPages.namespace := None |}.

(** The prompt remote with two pages in the graph. *)
Definition twoPagesRemote : Remote :=
  mkRemote (prompt [samplePage; samplePage])
    (on_getPage promptRemote) (on_getPageBlocksTree promptRemote)
    (on_getPageLinkedReferences promptRemote) (on_createPage promptRemote)
    (on_deletePage promptRemote) (on_renamePage promptRemote)
    (on_getBlock promptRemote) (on_insertBlock promptRemote)
    (on_insertBatchBlock promptRemote) (on_updateBlock promptRemote)
    (on_removeBlock promptRemote) (on_moveBlock promptRemote)
    (on_appendBlockInPage promptRemote) (on_getBlockProperties promptRemote)
    (on_upsertBlockProperty promptRemote) (on_createJournalPage promptRemote)
    (on_getAllTags promptRemote) (on_search promptRemote)
    (on_getCurrentGraph promptRemote).
Definition silentRemote : Remote := remoteOf (@silence).

Definition sampleTools (remote : Remote) : list Tool :=
  tools sampleClient remote sampleStringify sampleStringify sampleToLowerCase.

(** The prompt remote, except that appending a block meets a network
    error. *)
Definition appendFailsRemote : Remote :=
  mkRemote (on_getAllPages promptRemote)
    (on_getPage promptRemote) (on_getPageBlocksTree promptRemote)
    (on_getPageLinkedReferences promptRemote) (on_createPage promptRemote)
    (on_deletePage promptRemote) (on_renamePage promptRemote)
    (on_getBlock promptRemote) (on_insertBlock promptRemote)
    (on_insertBatchBlock promptRemote) (on_updateBlock promptRemote)
    (on_removeBlock promptRemote) (on_moveBlock promptRemote)
    (Unreachable (At 3) (ErrorExn (u "fetch failed")))
    (on_getBlockProperties promptRemote)
    (on_upsertBlockProperty promptRemote) (on_createJournalPage promptRemote)
    (on_getAllTags promptRemote) (on_search promptRemote)
    (on_getCurrentGraph promptRemote).

(** A block that pushes nothing: blank content and no children. *)
Definition quiet (b : BlockEntity) : bool :=
  blank (block_content b) &&
  match block_children b with
  | Some (_ :: _) => false
  | _ => true
  end.

(** The parameters of logseq_list_pages with another window. *)
Definition window (params : ListPages.Params) (offset limit : Z)
  : ListPages.Params :=
  {| ListPages.limit := limit; ListPages.offset := offset;
     ListPages.journal_only := ListPages.journal_only params;
     ListPages.namespace := ListPages.namespace params |}.

(** The pages a listing shows: the [sliced] pages of the handler. *)
Definition shownPages (params : ListPages.Params) (pages : list PageEntity)
  : list PageEntity :=
  slice pages (ListPages.offset params)
        (ListPages.offset params + ListPages.limit params).

(** The note that ends a listing when more pages are available. *)
Definition morePagesNote (params : ListPages.Params) : jsstring :=
  u "_More pages available. Use offset=" ++
  Number_toString (ListPages.offset params + ListPages.limit params) ++
  u " to see next batch._".

(** The prompt remote with a page whose blocks are all blank. *)
Definition blankPageRemote : Remote :=
  mkRemote (on_getAllPages promptRemote)
    (on_getPage promptRemote) (prompt (Some [leaf ""; leaf "  "]))
    (on_getPageLinkedReferences promptRemote) (on_createPage promptRemote)
    (on_deletePage promptRemote) (on_renamePage promptRemote)
    (on_getBlock promptRemote) (on_insertBlock promptRemote)
    (on_insertBatchBlock promptRemote) (on_updateBlock promptRemote)
    (on_removeBlock promptRemote) (on_moveBlock promptRemote)
    (on_appendBlockInPage promptRemote) (on_getBlockProperties promptRemote)
    (on_upsertBlockProperty promptRemote) (on_createJournalPage promptRemote)
    (on_getAllTags promptRemote) (on_search promptRemote)
    (on_getCurrentGraph promptRemote).

(** An environment with a token and nothing else. *)
Definition tokenOnlyEnv : ProcessEnv :=
  {| LOGSEQ_API_TOKEN := Some (u "secret"); LOGSEQ_API_URL := None;
     TRANSPORT := None; PORT := None |}.

(** * Properties *)

(** ** Strings and lists *)

Lemma jsstring_eqb_eq (a b : jsstring) : jsstring_eqb a b = true <-> a = b.
Proof.
  unfold jsstring_eqb. destruct (list_eq_dec N.eq_dec a b); split; congruence.
Qed.

Lemma jsstring_eqb_refl (a : jsstring) : jsstring_eqb a a = true.
Proof. now apply jsstring_eqb_eq. Qed.

Lemma mem_In (k : jsstring) (ks : list jsstring) : mem k ks = true <-> In k ks.
Proof.
  unfold mem. rewrite existsb_exists. split.
  - intros (x & Hin & Heq). apply jsstring_eqb_eq in Heq. now subst.
  - intros Hin. exists k. split; [assumption | apply jsstring_eqb_refl].
Qed.

Lemma str_length_app (a b : jsstring) :
  str_length (a ++ b) = str_length a + str_length b.
Proof. unfold str_length. rewrite length_app. lia. Qed.

(** [slice] from a start inside the list: drop [start], keep up to
    [stop - start]. *)
Lemma slice_from {A : Type} (l : list A) (start stop : Z) :
  0 <= start -> start <= stop ->
  slice l start stop =
  firstn (Z.to_nat (stop - start)) (skipn (Z.to_nat start) l).
Proof.
  intros Hs Hse. unfold slice, relative_index.
  destruct (Z.ltb_spec start 0); [lia |].
  destruct (Z.ltb_spec stop 0); [lia |].
  set (len := Z.of_nat (List.length l)).
  destruct (Z.le_gt_cases len start) as [Hout | Hin].
  - rewrite (Z.min_r start len) by lia.
    rewrite (Z.min_r stop len) by lia.
    replace (Z.to_nat (len - len)) with 0%nat by lia.
    rewrite (skipn_all2 l (n := Z.to_nat start)) by (subst len; lia).
    now rewrite firstn_nil.
  - rewrite (Z.min_l start len) by lia.
    destruct (Z.le_gt_cases stop len) as [Hfit | Hover].
    + now rewrite (Z.min_l stop len) by lia.
    + rewrite (Z.min_r stop len) by lia.
      rewrite !firstn_all2; [reflexivity | |];
        rewrite length_skipn; subst len; lia.
Qed.

Lemma slice_length {A : Type} (l : list A) (start stop : Z) :
  0 <= start -> start <= stop ->
  Z.of_nat (List.length (slice l start stop)) =
  Z.min (stop - start) (Z.max 0 (Z.of_nat (List.length l) - start)).
Proof.
  intros Hs Hse. rewrite slice_from by assumption.
  rewrite length_firstn, length_skipn. lia.
Qed.


(** ** Truncation *)

Example Number_toString_decimal :
  Number_toString 0 = u "0" /\ Number_toString 1 = u "1" /\
  Number_toString 30000 = u "30000" /\ Number_toString 123456 = u "123456".
Proof. repeat split; reflexivity. Qed.

Lemma truncate_within_limit (text : jsstring) :
  str_length text <= CHARACTER_LIMIT -> truncate text = text.
Proof.
  intros H. unfold truncate.
  destruct (Z.leb_spec (str_length text) CHARACTER_LIMIT); [reflexivity | lia].
Qed.

(** C1. A response string of length L > 100,000 is rendered as its first
    100,000 characters followed by the note that L - 100000 characters were
    omitted: the text splits into the part kept, of length 100,000, and the
    part omitted, of length L - 100000, and the response carries the part
    kept, two line feeds and the note with that number. *)
Theorem truncate_over_limit (text : jsstring) :
  CHARACTER_LIMIT < str_length text ->
  exists kept omitted : jsstring,
    text = kept ++ omitted /\
    str_length kept = 100000 /\
    str_length omitted = str_length text - 100000 /\
    textResponse text =
      {| isError := None;
         content :=
           [ {| item_type := u "text";
                item_text :=
                  kept ++ LF ++ LF ++ u "[Response truncated " ++ [8212%N] ++ u " " ++
                  Number_toString (str_length omitted) ++
                  u " characters omitted]" |} ] |}.
Proof.
  intros Hlong.
  exists (firstn (Z.to_nat CHARACTER_LIMIT) text),
         (skipn (Z.to_nat CHARACTER_LIMIT) text).
  assert (Hkept : str_length (firstn (Z.to_nat CHARACTER_LIMIT) text) = 100000).
  { unfold str_length in *. rewrite length_firstn.
    unfold CHARACTER_LIMIT in *. lia. }
  assert (Homitted : str_length (skipn (Z.to_nat CHARACTER_LIMIT) text)
                     = str_length text - 100000).
  { unfold str_length in *. rewrite length_skipn.
    unfold CHARACTER_LIMIT in *. lia. }
  repeat split.
  - symmetry. apply firstn_skipn.
  - exact Hkept.
  - exact Homitted.
  - unfold textResponse, truncate.
    destruct (Z.leb_spec (str_length text) CHARACTER_LIMIT) as [Hle | _]; [lia |].
    rewrite slice_from by (unfold CHARACTER_LIMIT; lia).
    rewrite Z.sub_0_r, Homitted. simpl (Z.to_nat 0). simpl (skipn 0 _).
    reflexivity.
Qed.

Lemma truncate_over_limit_witness :
  CHARACTER_LIMIT < str_length longText /\
  exists kept omitted : jsstring,
    longText = kept ++ omitted /\
    str_length kept = 100000 /\
    str_length omitted = str_length longText - 100000 /\
    textResponse longText =
      {| isError := None;
         content :=
           [ {| item_type := u "text";
                item_text :=
                  kept ++ LF ++ LF ++ u "[Response truncated " ++ [8212%N] ++ u " " ++
                  Number_toString (str_length omitted) ++
                  u " characters omitted]" |} ] |}.
Proof.
  split.
  - vm_compute. reflexivity.
  - apply (truncate_over_limit longText). vm_compute. reflexivity.
Defined.

Example truncate_longText :
  skipn (Z.to_nat CHARACTER_LIMIT) (truncate longText) =
  LF ++ LF ++ u "[Response truncated " ++ [8212%N] ++ u " 1 characters omitted]".
Proof. vm_compute. reflexivity. Qed.

(** ** Trimming *)

Lemma trimStart_split (s : jsstring) :
  exists lead, s = lead ++ trimStart s /\ forallb isWhiteSpace lead = true.
Proof.
  induction s as [| c rest (lead & Hsplit & Hws)].
  - now exists [].
  - simpl. destruct (isWhiteSpace c) eqn:Hc.
    + exists (c :: lead). simpl. rewrite Hc, Hws. now rewrite <- Hsplit.
    + now exists [].
Qed.

Lemma trimStart_blank (s : jsstring) :
  forallb isWhiteSpace s = true <-> trimStart s = [].
Proof.
  induction s as [| c rest IH]; simpl; [tauto |].
  destruct (isWhiteSpace c); simpl; [exact IH | split; discriminate].
Qed.

Lemma trimStart_head (s : jsstring) (c : code_unit) (rest : jsstring) :
  trimStart s = c :: rest -> isWhiteSpace c = false.
Proof.
  induction s as [| d tail IH]; simpl; [discriminate |].
  destruct (isWhiteSpace d) eqn:Hd; [exact IH |].
  intros [= -> _]. exact Hd.
Qed.

Lemma forallb_rev {A : Type} (f : A -> bool) (l : list A) :
  forallb f (rev l) = forallb f l.
Proof.
  induction l as [| a l IH]; [reflexivity |].
  simpl. rewrite forallb_app, IH. simpl. rewrite andb_true_r. apply andb_comm.
Qed.

(** [trim] cuts white space, and only white space, from both ends. *)
Lemma trim_split (s : jsstring) :
  exists lead trail,
    s = lead ++ trim s ++ trail /\
    forallb isWhiteSpace lead = true /\ forallb isWhiteSpace trail = true.
Proof.
  destruct (trimStart_split s) as (lead & Hs & Hlead).
  destruct (trimStart_split (rev (trimStart s))) as (tail & Hr & Htail).
  exists lead, (rev tail). repeat split.
  - unfold trim, trimEnd. rewrite <- rev_app_distr, <- Hr, rev_involutive.
    exact Hs.
  - exact Hlead.
  - now rewrite forallb_rev.
Qed.

Lemma trim_ends (s : jsstring) :
  (forall c rest, trim s = c :: rest -> isWhiteSpace c = false) /\
  (forall c front, trim s = front ++ [c] -> isWhiteSpace c = false).
Proof.
  split.
  - intros c rest H. unfold trim, trimEnd in H.
    destruct (trimStart_split (rev (trimStart s))) as (tail & Hr & Htail).
    assert (Hs : trimStart s = rev (trimStart (rev (trimStart s))) ++ rev tail).
    { rewrite <- rev_app_distr, <- Hr. now rewrite rev_involutive. }
    rewrite H in Hs. simpl in Hs. now apply trimStart_head in Hs.
  - intros c front H. unfold trim, trimEnd in H.
    apply (f_equal (@rev _)) in H. rewrite rev_involutive, rev_app_distr in H.
    simpl in H. now apply trimStart_head in H.
Qed.

Lemma trim_blank (s : jsstring) :
  forallb isWhiteSpace s = true <-> trim s = [].
Proof.
  unfold trim, trimEnd. split.
  - intros H. apply trimStart_blank in H. now rewrite H.
  - intros H. apply (f_equal (@rev _)) in H. rewrite rev_involutive in H.
    simpl in H. apply trimStart_blank in H. rewrite forallb_rev in H.
    destruct (trimStart_split s) as (lead & Hs & Hlead).
    rewrite Hs, forallb_app, Hlead, H. reflexivity.
Qed.

Lemma truthy_trim (s : jsstring) :
  truthy (trim s) = negb (forallb isWhiteSpace s).
Proof.
  destruct (forallb isWhiteSpace s) eqn:H.
  - apply trim_blank in H. now rewrite H.
  - destruct (trim s) eqn:Ht; [| reflexivity].
    apply trim_blank in Ht. congruence.
Qed.

(** ** The block-tree renderer *)

(** One turn of the loop: the block's own line, if its trimmed content is
    not empty, then the rendering of its children, if it has any. *)
Lemma blockLines_unfold (depth : nat) (b : BlockEntity) :
  blockLines depth b =
  (match option_map trim (block_content b) with
   | Some c => if truthy c then [str_repeat (u "  ") depth ++ u "- " ++ c] else []
   | None => []
   end) ++ childrenLines depth b.
Proof.
  destruct b as [id uuid content lft parent page properties [[| child others] |]];
    reflexivity.
Qed.

Lemma renderBlockTree_cons (b : BlockEntity) (rest : list BlockEntity) (depth : nat) :
  renderBlockTree (b :: rest) depth =
  join LF (blockLines depth b ++ flat_map (blockLines depth) rest).
Proof. reflexivity. Qed.

Lemma with_content_children (c : option jsstring) (b : BlockEntity) :
  block_children (with_content c b) = block_children b.
Proof. now destruct b. Qed.

Lemma with_content_content (c : option jsstring) (b : BlockEntity) :
  block_content (with_content c b) = c.
Proof. now destruct b. Qed.

Lemma childrenLines_with_content (c : option jsstring) (b : BlockEntity) (depth : nat) :
  childrenLines depth (with_content c b) = childrenLines depth b.
Proof. unfold childrenLines. now rewrite with_content_children. Qed.

(** C3. The tree [{content:"A", children:[{content:"B"}]}], whatever the
    other fields of its two blocks, renders at depth 0 to "- A\n  - B". *)
Theorem renderBlockTree_A_B
  (idA idB lftA lftB parentA parentB pageA pageB : Z) (uuidA uuidB : jsstring)
  (propertiesA propertiesB : option jsobject) :
  renderBlockTree
    [ mkBlock idA uuidA (Some (u "A")) lftA parentA pageA propertiesA
        (Some [ mkBlock idB uuidB (Some (u "B")) lftB parentB pageB propertiesB None ]) ]
    0
  = u "- A" ++ LF ++ u "  - B".
Proof. reflexivity. Qed.

(** C10. The renderer trims the content of a block before it emits the
    block's line: the line is the indentation, "- " and the content without
    the white space at its two ends.  A block whose content is only white
    space, or absent, is treated exactly like a block with empty content:
    it pushes no line of its own and its children are still rendered. *)
Theorem content_trimmed_blank_skipped (b : BlockEntity) (depth : nat) :
  (blank (block_content b) = false ->
   exists c lead trail,
     block_content b = Some c /\
     c = lead ++ trim c ++ trail /\
     forallb isWhiteSpace lead = true /\ forallb isWhiteSpace trail = true /\
     (forall first rest, trim c = first :: rest -> isWhiteSpace first = false) /\
     (forall front last, trim c = front ++ [last] -> isWhiteSpace last = false) /\
     blockLines depth b =
       (str_repeat (u "  ") depth ++ u "- " ++ trim c) :: childrenLines depth b) /\
  (blank (block_content b) = true ->
   blockLines depth b = childrenLines depth b /\
   blockLines depth b = blockLines depth (with_content (Some []) b) /\
   forall rest,
     renderBlockTree (b :: rest) depth =
     renderBlockTree (with_content (Some []) b :: rest) depth).
Proof.
  split.
  - intros Hblank. destruct (block_content b) as [c |] eqn:Hc; [| discriminate].
    simpl in Hblank.
    destruct (trim_split c) as (lead & trail & Hsplit & Hlead & Htrail).
    destruct (trim_ends c) as [Hfirst Hlast].
    exists c, lead, trail.
    split; [reflexivity |]. split; [exact Hsplit |].
    split; [exact Hlead |]. split; [exact Htrail |].
    split; [exact Hfirst |]. split; [intros front last; apply Hlast |].
    rewrite blockLines_unfold, Hc. simpl.
    now rewrite truthy_trim, Hblank.
  - intros Hblank.
    assert (Hown : blockLines depth b = childrenLines depth b).
    { rewrite blockLines_unfold.
      destruct (block_content b) as [c |]; [| reflexivity].
      simpl in *. now rewrite truthy_trim, Hblank. }
    assert (Hsame : blockLines depth b = blockLines depth (with_content (Some []) b)).
    { rewrite Hown, blockLines_unfold, with_content_content.
      now rewrite childrenLines_with_content. }
    split; [exact Hown |]. split; [exact Hsame |].
    intros rest. rewrite !renderBlockTree_cons. now rewrite <- Hsame.
Qed.

Lemma content_trimmed_blank_skipped_witness :
  (exists c lead trail,
     block_content (node "  A " [leaf "B"]) = Some c /\
     c = lead ++ trim c ++ trail /\
     forallb isWhiteSpace lead = true /\ forallb isWhiteSpace trail = true /\
     (forall first rest, trim c = first :: rest -> isWhiteSpace first = false) /\
     (forall front last, trim c = front ++ [last] -> isWhiteSpace last = false) /\
     blockLines 1 (node "  A " [leaf "B"]) =
       (str_repeat (u "  ") 1 ++ u "- " ++ trim c) ::
       childrenLines 1 (node "  A " [leaf "B"])) /\
  (blockLines 1 (node "   " [leaf "B"]) = childrenLines 1 (node "   " [leaf "B"]) /\
   blockLines 1 (node "   " [leaf "B"]) =
     blockLines 1 (with_content (Some []) (node "   " [leaf "B"])) /\
   forall rest,
     renderBlockTree (node "   " [leaf "B"] :: rest) 1 =
     renderBlockTree (with_content (Some []) (node "   " [leaf "B"]) :: rest) 1).
Proof.
  split.
  - apply (proj1 (content_trimmed_blank_skipped (node "  A " [leaf "B"]) 1)).
    reflexivity.
  - apply (proj2 (content_trimmed_blank_skipped (node "   " [leaf "B"]) 1)).
    reflexivity.
Defined.

Example render_trimmed :
  renderBlockTree [node "  A " [leaf "B  "; node " " [leaf "C"]]] 0 =
  u "- A" ++ LF ++ u "  - B" ++ LF ++ u "    - C".
Proof. reflexivity. Qed.

(** *** The outline of the specification *)

Lemma join_cons (sep p : jsstring) (rest : list jsstring) :
  rest <> [] -> join sep (p :: rest) = p ++ sep ++ join sep rest.
Proof. destruct rest; [congruence | reflexivity]. Qed.

Lemma join_app (sep : jsstring) (a b : list jsstring) :
  a <> [] -> b <> [] -> join sep (a ++ b) = join sep a ++ sep ++ join sep b.
Proof.
  intros Ha Hb. induction a as [| p a IH]; [congruence |].
  destruct a as [| q a].
  - simpl app. now rewrite join_cons.
  - change ((p :: q :: a) ++ b) with (p :: ((q :: a) ++ b)).
    rewrite join_cons by discriminate.
    rewrite IH by discriminate.
    rewrite (join_cons sep p (q :: a)) by discriminate.
    now rewrite <- !app_assoc.
Qed.

Lemma sameText_refl (a : list jsstring) : sameText a a.
Proof. now intros before after. Qed.

Lemma sameText_app (a a' b b' : list jsstring) :
  sameText a a' -> sameText b b' -> sameText (a ++ b) (a' ++ b').
Proof.
  intros Ha Hb before after. rewrite <- !app_assoc.
  rewrite (Ha before (b ++ after)).
  rewrite !(app_assoc before). rewrite (Hb (before ++ a') after).
  reflexivity.
Qed.

Lemma sameText_join (a b : list jsstring) :
  sameText a b -> join LF a = join LF b.
Proof. intros H. specialize (H [] []). now rewrite !app_nil_r in H. Qed.

(** Lines joined beforehand and pushed as one entry read the same as the
    lines pushed one by one, provided there is a line at all. *)
Lemma sameText_nested (lines : list jsstring) :
  lines <> [] -> sameText [join LF lines] lines.
Proof.
  intros Hne before after.
  destruct before as [| b0 before], after as [| a0 after]; simpl app.
  - now rewrite app_nil_r.
  - rewrite join_app by (assumption || discriminate).
    now rewrite join_cons by discriminate.
  - rewrite app_nil_r.
    change (b0 :: before ++ [join LF lines]) with ((b0 :: before) ++ [join LF lines]).
    change (b0 :: before ++ lines) with ((b0 :: before) ++ lines).
    now rewrite !join_app by (assumption || discriminate).
  - change (b0 :: before ++ join LF lines :: a0 :: after)
      with ((b0 :: before) ++ [join LF lines] ++ (a0 :: after)).
    change (b0 :: before ++ lines ++ a0 :: after)
      with ((b0 :: before) ++ lines ++ (a0 :: after)).
    assert (Hlines : lines ++ a0 :: after <> []) by (destruct lines; discriminate).
    rewrite !(join_app LF (b0 :: before)) by (assumption || discriminate).
    rewrite !(join_app LF _ (a0 :: after)) by (assumption || discriminate).
    reflexivity.
Qed.

(** Induction on a block tree. *)
Lemma BlockEntity_tree_ind (P : BlockEntity -> Prop) :
  (forall id uuid content lft parent page properties,
      P (mkBlock id uuid content lft parent page properties None)) ->
  (forall id uuid content lft parent page properties children,
      Forall P children ->
      P (mkBlock id uuid content lft parent page properties (Some children))) ->
  forall b, P b.
Proof.
  intros Hleaf Hnode.
  fix IH 1.
  intros [id uuid content lft parent page properties [children |]].
  - apply Hnode. induction children as [| child others IHothers].
    + constructor.
    + constructor; [apply IH | exact IHothers].
  - apply Hleaf.
Qed.

Lemma silent_outline (b : BlockEntity) :
  forall depth, silent b = true <-> outlineOf depth b = [].
Proof.
  induction b as [id uuid content lft parent page properties
                 | id uuid content lft parent page properties children IH]
    using BlockEntity_tree_ind; intros depth; simpl.
  - rewrite andb_true_r, app_nil_r.
    destruct (option_map trim content) as [c |]; [| tauto].
    destruct (truthy c); simpl; split; intros H; (discriminate H || reflexivity).
  - assert (Hchildren : forallb silent children = true <->
                        flat_map (outlineOf (S depth)) children = []).
    { induction IH as [| child others Hchild _ IHothers]; simpl; [tauto |].
      rewrite andb_true_iff, (Hchild (S depth)), IHothers.
      split.
      - intros [-> ->]. reflexivity.
      - intros H. now apply app_eq_nil in H. }
    rewrite andb_true_iff, Hchildren.
    destruct (option_map trim content) as [c |].
    + destruct (truthy c); simpl.
      * split; [intros [? _]; discriminate | discriminate].
      * tauto.
    + simpl. tauto.
Qed.

Lemma sameText_flat_map (f g : BlockEntity -> list jsstring) (bs : list BlockEntity) :
  Forall (fun b => sameText (f b) (g b)) bs ->
  sameText (flat_map f bs) (flat_map g bs).
Proof.
  induction 1 as [| b rest Hb _ IH]; simpl.
  - apply sameText_refl.
  - now apply sameText_app.
Qed.

Lemma blockLines_outlineOf (b : BlockEntity) :
  fertile b = true ->
  forall depth, sameText (blockLines depth b) (outlineOf depth b).
Proof.
  induction b as [id uuid content lft parent page properties
                 | id uuid content lft parent page properties children IH]
    using BlockEntity_tree_ind; intros Hfertile depth.
  - rewrite blockLines_unfold. apply sameText_refl.
  - rewrite blockLines_unfold. unfold childrenLines. simpl.
    apply sameText_app; [apply sameText_refl |].
    destruct children as [| child others]; [apply sameText_refl |].
    simpl in Hfertile. apply andb_true_iff in Hfertile as [Hloud Hfertile].
    assert (Hsame : sameText (flat_map (blockLines (S depth)) (child :: others))
                             (flat_map (outlineOf (S depth)) (child :: others))).
    { apply sameText_flat_map.
      change (forallb fertile (child :: others) = true) in Hfertile.
      rewrite forallb_forall in Hfertile. rewrite Forall_forall in IH |- *.
      intros x Hx. apply IH; [exact Hx | now apply Hfertile]. }
    unfold renderBlockTree. rewrite (sameText_join _ _ Hsame).
    apply sameText_nested.
    intros Hnil. apply negb_true_iff in Hloud.
    change (forallb silent (child :: others) = false) in Hloud.
    assert (Hall : forallb silent (child :: others) = true); [| congruence].
    apply forallb_forall. intros x Hx.
    apply (silent_outline x (S depth)).
    clear - Hnil Hx. induction (child :: others) as [| y ys IHys]; [contradiction |].
    simpl in Hnil. apply app_eq_nil in Hnil as [Hy Hys].
    destruct Hx as [<- | Hx]; [exact Hy | now apply IHys].
Qed.

(** Where no block has children that are all silent, the rendering is the
    outline of the specification, joined by line feeds. *)
Lemma renderBlockTree_outline (blocks : list BlockEntity) (depth : nat) :
  forallb fertile blocks = true ->
  renderBlockTree blocks depth = join LF (outline blocks depth).
Proof.
  intros Hfertile. unfold renderBlockTree, outline.
  apply sameText_join, sameText_flat_map.
  rewrite forallb_forall in Hfertile. apply Forall_forall.
  intros b Hb. now apply blockLines_outlineOf, Hfertile.
Qed.

(** C2. Where the code leaves the outline of the specification: for the
    tree [{content:"A", children:[{content:""}]}] the outline has the one
    line "- A", and the code returns "- A" followed by a line feed, that
    is, a second, empty line for the children that have no line. *)
Theorem renderBlockTree_silent_children :
  join LF (outline [node "A" [leaf ""]] 0) = u "- A" /\
  renderBlockTree [node "A" [leaf ""]] 0 = u "- A" ++ LF /\
  renderBlockTree [node "" [leaf ""]; leaf "B"] 0 = LF ++ u "- B".
Proof. repeat split; reflexivity. Qed.

(** ** Validation *)

Lemma range_issues_ok (lo hi : option Z) (measure : Z) :
  match lo with Some l => l <= measure | None => True end ->
  match hi with Some h => measure <= h | None => True end ->
  range_issues lo hi measure = [].
Proof.
  intros Hlo Hhi. unfold range_issues.
  destruct lo as [l |], hi as [h |]; simpl;
    repeat match goal with
           | |- context [?a <? ?b] => destruct (Z.ltb_spec a b); [lia |]
           end; reflexivity.
Qed.

Lemma range_issues_low (lo : Z) (hi : option Z) (measure : Z) :
  measure < lo -> exists first rest, range_issues (Some lo) hi measure = first :: rest.
Proof.
  intros H. unfold range_issues.
  destruct (Z.ltb_spec measure lo); [| lia]. simpl. eauto.
Qed.

Lemma range_issues_high (lo : option Z) (hi : Z) (measure : Z) :
  hi < measure -> exists first rest, range_issues lo (Some hi) measure = first :: rest.
Proof.
  intros H. unfold range_issues.
  destruct (Z.ltb_spec hi measure) as [_ |]; [| lia].
  destruct lo as [l |]; [destruct (measure <? l) |]; simpl; eauto.
Qed.

Lemma no_extra_keys (known : list jsstring) (fields : jsobject) :
  (forall key, In key (keys fields) -> In key known) ->
  filter (fun k => negb (mem k known)) (keys fields) = [].
Proof.
  intros H. induction (keys fields) as [| k ks IH]; [reflexivity |].
  simpl. assert (Hk : mem k known = true) by (apply mem_In, H; now left).
  rewrite Hk. simpl. apply IH. intros key Hin. apply H. now right.
Qed.

(** C4. The validator accepts every valid input of logseq_list_pages and
    applies the documented defaults: a limit left out becomes 50 (the
    default page limit), an offset left out becomes 0; a limit or offset
    that is given is kept (and journal_only left out becomes false). *)
Theorem ListPagesSchema_accepts_with_defaults (fields : jsobject) :
  ValidListPagesInput fields ->
  exists params : ListPages.Params,
    parse ListPagesSchema (Some (JObj fields)) = Success params /\
    ListPages.limit params =
      match get_prop (u "limit") fields with
      | None => DEFAULT_PAGE_LIMIT
      | Some v => match v with JNum (Integral n) => n | _ => 50 end
      end /\
    ListPages.offset params =
      match get_prop (u "offset") fields with
      | None => 0
      | Some v => match v with JNum (Integral n) => n | _ => 0 end
      end /\
    ListPages.journal_only params =
      match get_prop (u "journal_only") fields with
      | Some (JBool b) => b
      | _ => false
      end /\
    ListPages.namespace params =
      match get_prop (u "namespace") fields with
      | Some (JStr s) => Some s
      | _ => None
      end.
Proof.
  intros [Hknown Hlimit Hoffset Hjournal Hnamespace].
  unfold ListPagesSchema.
  cbn [parse parse_shape shape_keys app].
  rewrite (no_extra_keys _ fields Hknown).
  destruct (get_prop (u "limit") fields) as [vl |] eqn:El;
    [destruct (Hlimit _ eq_refl) as (l & -> & Hl) |];
  (destruct (get_prop (u "offset") fields) as [vo |] eqn:Eo;
    [destruct (Hoffset _ eq_refl) as (o & -> & Ho) |]);
  (destruct (get_prop (u "journal_only") fields) as [vj |] eqn:Ej;
    [destruct (Hjournal _ eq_refl) as (j & ->) |]);
  (destruct (get_prop (u "namespace") fields) as [vn |] eqn:En;
    [destruct (Hnamespace _ eq_refl) as (ns & ->) |]);
  cbn [parse num];
  rewrite ?(range_issues_ok (Some 1) (Some 500) l) by (simpl; lia);
  rewrite ?(range_issues_ok (Some 0) None o) by (simpl; lia);
  rewrite ?(range_issues_ok None None) by exact I;
  cbn; eexists; (split; [reflexivity |]); cbn; repeat split; reflexivity.
Qed.

Lemma ListPagesSchema_accepts_with_defaults_witness :
  ValidListPagesInput [(u "offset", num 100)] /\
  exists params : ListPages.Params,
    parse ListPagesSchema (Some (JObj [(u "offset", num 100)])) = Success params /\
    ListPages.limit params =
      match get_prop (u "limit") [(u "offset", num 100)] with
      | None => DEFAULT_PAGE_LIMIT
      | Some v => match v with JNum (Integral n) => n | _ => 50 end
      end /\
    ListPages.offset params =
      match get_prop (u "offset") [(u "offset", num 100)] with
      | None => 0
      | Some v => match v with JNum (Integral n) => n | _ => 0 end
      end /\
    ListPages.journal_only params =
      match get_prop (u "journal_only") [(u "offset", num 100)] with
      | Some (JBool b) => b
      | _ => false
      end /\
    ListPages.namespace params =
      match get_prop (u "namespace") [(u "offset", num 100)] with
      | Some (JStr s) => Some s
      | _ => None
      end.
Proof.
  assert (Hvalid : ValidListPagesInput [(u "offset", num 100)]).
  { constructor.
    - intros key [<- | []]. simpl. tauto.
    - intros v H. vm_compute in H. discriminate.
    - intros v H. vm_compute in H. injection H as <-. exists 100. split; [reflexivity | lia].
    - intros v H. vm_compute in H. discriminate.
    - intros v H. vm_compute in H. discriminate. }
  split; [exact Hvalid |].
  exact (ListPagesSchema_accepts_with_defaults [(u "offset", num 100)] Hvalid).
Defined.

Example ListPagesSchema_all_defaults :
  parse ListPagesSchema (Some (JObj [])) =
  Success {| ListPages.limit := 50; ListPages.offset := 0;
             ListPages.journal_only := false; ListPages.namespace := None |}.
Proof. reflexivity. Qed.

(** *** Rejection *)

Lemma at_path_fails {A : Type} (p : PathElem) (r : ParseResult A) :
  fails r -> fails (at_path p r).
Proof. intros (issues & ->). simpl. now eexists. Qed.

Lemma both_fails_left {A B C : Type} (f : A -> B -> C)
  (ra : ParseResult A) (rb : ParseResult B) :
  fails ra -> fails (both f ra rb).
Proof. intros (issues & ->). destruct rb; simpl; now eexists. Qed.

Lemma both_fails_right {A B C : Type} (f : A -> B -> C)
  (ra : ParseResult A) (rb : ParseResult B) :
  fails rb -> fails (both f ra rb).
Proof. intros (issues & ->). destruct ra; simpl; now eexists. Qed.

Lemma checked_fails {A : Type} (first : ZodIssue) (rest : list ZodIssue) (a : A) :
  fails (checked (first :: rest) a).
Proof. simpl. now eexists. Qed.

Lemma parse_items_fails {A : Type} (parse_item : option json -> ParseResult A)
  (items : list json) (item : json) :
  In item items -> fails (parse_item (Some item)) ->
  forall index, fails (parse_items parse_item index items).
Proof.
  intros Hin Hitem. induction items as [| first rest IH]; [contradiction |].
  intros index. simpl. destruct Hin as [-> | Hin].
  - now apply both_fails_left, at_path_fails.
  - now apply both_fails_right, IH.
Qed.

Lemma parse_shape_fails {R A : Type} (shape : ZodShape R) (key : jsstring)
  (field : ZodType A) (fields : jsobject) :
  HasField shape key field ->
  fails (parse field (get_prop key fields)) ->
  fails (parse_shape shape fields).
Proof.
  induction 1 as [A R rest key field | A R B rest key field k f _ IH];
    intros Hfield; simpl.
  - now apply both_fails_right, at_path_fails.
  - now apply both_fails_left, IH.
Qed.

Lemma extra_key_kept (known : list jsstring) (fields : jsobject) (key : jsstring) :
  In key (keys fields) -> ~ In key known ->
  exists first rest,
    filter (fun k => negb (mem k known)) (keys fields) = first :: rest.
Proof.
  intros Hin Hnew.
  assert (Hkept : In key (filter (fun k => negb (mem k known)) (keys fields))).
  { apply filter_In. split; [assumption |].
    destruct (mem key known) eqn:Hmem; [| reflexivity].
    apply mem_In in Hmem. contradiction. }
  destruct (filter _ (keys fields)) as [| first rest]; [contradiction | eauto].
Qed.

(** Every input that breaks a declared constraint fails to parse. *)
Lemma violation_fails {A : Type} (schema : ZodType A) (input : option json) :
  Violates schema input -> fails (parse schema input).
Proof.
  induction 1 as
    [ A schema Hrequired
    | lo hi v Hnot | lo hi s Hshort | lo hi s Hlong
    | lo hi v Hnot | lo hi n Hsmall | lo hi n Hbig
    | v Hnot | values v Hnot | v Hnot
    | A element lo v Hnot | A element lo items Hshort
    | A element lo items item Hin _ IH
    | A inner v _ IH | A inner d v _ IH
    | R shape mode v Hnot
    | R shape mode fields key A field Hfield _ IH
    | R shape fields key Hin Hnew ].
  - destruct schema; try discriminate; simpl; now eexists.
  - simpl. destruct v; try (now eexists). now elim (Hnot s).
  - simpl. destruct (range_issues_low lo hi _ Hshort) as (i & rest & ->).
    apply checked_fails.
  - simpl. destruct (range_issues_high lo hi _ Hlong) as (i & rest & ->).
    apply checked_fails.
  - simpl. destruct v as [| | [n |] | | |]; try (now eexists). now elim (Hnot n).
  - simpl. destruct (range_issues_low lo hi _ Hsmall) as (i & rest & ->).
    apply checked_fails.
  - simpl. destruct (range_issues_high lo hi _ Hbig) as (i & rest & ->).
    apply checked_fails.
  - simpl. destruct v; try (now eexists). now elim (Hnot b).
  - simpl. destruct v; try (now eexists).
    destruct (mem s values) eqn:Hmem; [| now eexists].
    apply mem_In in Hmem. now elim (Hnot s Hmem).
  - simpl. destruct v; try (now eexists). now elim (Hnot fields).
  - simpl. destruct v; try (now eexists). now elim (Hnot items).
  - simpl. apply both_fails_left.
    destruct (range_issues_low lo None _ Hshort) as (i & rest & ->).
    apply checked_fails.
  - simpl. apply both_fails_right. now apply parse_items_fails with (item := item).
  - simpl. destruct IH as (issues & ->). now eexists.
  - simpl. exact IH.
  - simpl. destruct v; try (now eexists). now elim (Hnot fields).
  - simpl. apply both_fails_left. now apply parse_shape_fails with (1 := Hfield).
  - simpl. apply both_fails_right.
    destruct (extra_key_kept _ _ _ Hin Hnew) as (first & rest & ->). now eexists.
Qed.

(** *** What logseq_list_pages accepts is valid *)

(** The converse of C4: the validator accepts nothing but the valid inputs. *)
Lemma ListPagesSchema_accepts_only_valid (fields : jsobject)
  (params : ListPages.Params) :
  parse ListPagesSchema (Some (JObj fields)) = Success params ->
  ValidListPagesInput fields.
Proof.
  intros Hparse.
  assert (Hnot : ~ Violates ListPagesSchema (Some (JObj fields))).
  { intros Hv. destruct (violation_fails _ _ Hv) as (issues & Hi). congruence. }
  assert (Hfield :
            forall key (A : Type) (field : ZodType A) v,
              HasField
                (ShapeNil ListPages.mk
                 <+ "limit" := ZodDefault (ZodInt (Some 1) (Some 500)) (num 50)
                 <+ "offset" := ZodDefault (ZodInt (Some 0) None) (num 0)
                 <+ "journal_only" := ZodDefault ZodBoolean (JBool false)
                 <+ "namespace" := ZodOptional (ZodString None None))
                key field ->
              get_prop key fields = Some v -> ~ Violates field (Some v)).
  { intros key A field v Hhas Hget Hv. apply Hnot.
    apply object_field with (key := key) (field := field); [exact Hhas |].
    now rewrite Hget. }
  constructor.
  - intros key Hin.
    destruct (mem key [u "limit"; u "offset"; u "journal_only"; u "namespace"])
      eqn:Hmem; [now apply mem_In |].
    exfalso. apply Hnot. apply object_unrecognized with (key := key); [exact Hin |].
    intros Hknown. apply mem_In in Hknown. simpl shape_keys in Hknown.
    rewrite Hknown in Hmem. discriminate.
  - intros v Hget.
    assert (Hok := Hfield _ _ _ v (has_earlier _ _ _ _ _ _ _ _
                     (has_earlier _ _ _ _ _ _ _ _
                        (has_earlier _ _ _ _ _ _ _ _ (has_last _ _ _ _ _)))) Hget).
    destruct v as [| | [n |] | | |];
      try (exfalso; apply Hok, default_value, integer_expected;
           intros ? ?; discriminate).
    exists n. split; [reflexivity |].
    destruct (Z_lt_le_dec n 1);
      [exfalso; apply Hok, default_value; now apply integer_too_small |].
    destruct (Z_lt_le_dec 500 n);
      [exfalso; apply Hok, default_value; now apply integer_too_big | lia].
  - intros v Hget.
    assert (Hok := Hfield _ _ _ v (has_earlier _ _ _ _ _ _ _ _
                     (has_earlier _ _ _ _ _ _ _ _ (has_last _ _ _ _ _))) Hget).
    destruct v as [| | [n |] | | |];
      try (exfalso; apply Hok, default_value, integer_expected;
           intros ? ?; discriminate).
    exists n. split; [reflexivity |].
    destruct (Z_lt_le_dec n 0);
      [exfalso; apply Hok, default_value; now apply integer_too_small | lia].
  - intros v Hget.
    assert (Hok := Hfield _ _ _ v (has_earlier _ _ _ _ _ _ _ _ (has_last _ _ _ _ _))
                          Hget).
    destruct v;
      try (exfalso; apply Hok, default_value, boolean_expected;
           intros ? ?; discriminate).
    now exists b.
  - intros v Hget.
    assert (Hok := Hfield _ _ _ v (has_last _ _ _ _ _) Hget).
    destruct v;
      try (exfalso; apply Hok, optional_value, string_expected;
           intros ? ?; discriminate).
    now exists s.
Qed.

(** *** Every rejection is a violation *)

Scheme ZodType_shape_ind := Induction for ZodType Sort Prop
  with ZodShape_type_ind := Induction for ZodShape Sort Prop.

Lemma range_issues_some (lo hi : option Z) (measure : Z) (first : ZodIssue)
  (rest : list ZodIssue) :
  range_issues lo hi measure = first :: rest ->
  (exists l, lo = Some l /\ measure < l) \/ (exists h, hi = Some h /\ h < measure).
Proof.
  unfold range_issues.
  destruct lo as [l |], hi as [h |]; simpl;
    repeat match goal with
           | |- context [?a <? ?b] => destruct (Z.ltb_spec a b); simpl
           end;
    try discriminate; intros _; eauto.
Qed.

Lemma checked_fails_inv {A : Type} (issues : list ZodIssue) (a : A) :
  fails (checked issues a) -> exists first rest, issues = first :: rest.
Proof. destruct issues; [intros (i & H); discriminate | eauto]. Qed.

Lemma both_fails_inv {A B C : Type} (f : A -> B -> C)
  (ra : ParseResult A) (rb : ParseResult B) :
  fails (both f ra rb) -> fails ra \/ fails rb.
Proof.
  destruct ra, rb; simpl; intros (i & H); try discriminate;
    [right | left | left]; now eexists.
Qed.

Lemma at_path_fails_inv {A : Type} (p : PathElem) (r : ParseResult A) :
  fails (at_path p r) -> fails r.
Proof. destruct r; simpl; intros (i & H); [discriminate | now eexists]. Qed.

Lemma parse_items_fails_inv {A : Type} (parse_item : option json -> ParseResult A)
  (items : list json) :
  forall index, fails (parse_items parse_item index items) ->
  exists item, In item items /\ fails (parse_item (Some item)).
Proof.
  induction items as [| first rest IH]; intros index; simpl.
  - intros (i & H). discriminate.
  - intros H. apply both_fails_inv in H as [H | H].
    + apply at_path_fails_inv in H. exists first. split; [now left | exact H].
    + destruct (IH _ H) as (item & Hin & Hitem). exists item. split; [now right | exact Hitem].
Qed.


(** Conversely, whatever a schema with valid defaults rejects breaks one
    of its declared constraints: [Violates] leaves no rejection out. *)
Lemma rejection_violates {A : Type} (schema : ZodType A) :
  defaults_valid schema = true ->
  forall input, fails (parse schema input) -> Violates schema input.
Proof.
  induction schema using ZodType_shape_ind with
    (P0 := fun R (shape : ZodShape R) =>
             shape_defaults_valid shape = true ->
             forall fields, fails (parse_shape shape fields) ->
               exists key (B : Type) (field : ZodType B),
                 HasField shape key field /\
                 Violates field (get_prop key fields)).
  all: intros Hvalid input Hfails; simpl in Hfails, Hvalid.
  - destruct input as [v |]; [| now apply missing_required].
    destruct v; try (apply string_expected; intros ? ?; discriminate).
    apply checked_fails_inv in Hfails as (i & rest & Hr).
    apply range_issues_some in Hr as [(l & -> & Hl) | (h & -> & Hh)];
      [now apply string_too_short | now apply string_too_long].
  - destruct input as [v |]; [| now apply missing_required].
    destruct v as [| | [n |] | | |]; try (apply integer_expected; intros ? ?; discriminate).
    apply checked_fails_inv in Hfails as (i & rest & Hr).
    apply range_issues_some in Hr as [(l & -> & Hl) | (h & -> & Hh)];
      [now apply integer_too_small | now apply integer_too_big].
  - destruct input as [v |]; [| now apply missing_required].
    destruct v; try (apply boolean_expected; intros ? ?; discriminate).
    destruct Hfails as (i & H). discriminate.
  - destruct input as [v |]; [| now apply missing_required].
    destruct v; try (apply enum_expected; intros ? ? ?; discriminate).
    destruct (mem s values) eqn:Hmem; [destruct Hfails as (i & H); discriminate |].
    apply enum_expected. intros s' Hin [= ->].
    apply mem_In in Hin. congruence.
  - destruct Hfails as (i & H). discriminate.
  - destruct input as [v |]; [| now apply missing_required].
    destruct v; try (apply record_expected; intros ? ?; discriminate).
    destruct Hfails as (i & H). discriminate.
  - destruct input as [v |]; [| now apply missing_required].
    destruct v; try (apply array_expected; intros ? ?; discriminate).
    apply both_fails_inv in Hfails as [H | H].
    + apply checked_fails_inv in H as (i & rest & Hr).
      apply range_issues_some in Hr as [(l & -> & Hl) | (h & Hh & _)];
        [now apply array_too_short | discriminate].
    + apply parse_items_fails_inv in H as (item & Hin & Hitem).
      apply array_item with (item := item); [exact Hin | now apply IHschema].
  - destruct input as [v |]; [destruct Hfails as (i & H); simpl in H |
                              destruct Hfails as (i & H); discriminate].
    apply optional_value. apply IHschema; [exact Hvalid |].
    destruct (parse schema (Some v)); [discriminate | now eexists].
  - apply andb_true_iff in Hvalid as [Hinner Hdefault].
    destruct input as [v |].
    + apply default_value. now apply IHschema.
    + destruct Hfails as (i & H). rewrite H in Hdefault. discriminate.
  - destruct input as [v |]; [| now apply missing_required].
    destruct v; try (apply object_expected; intros ? ?; discriminate).
    apply both_fails_inv in Hfails as [H | H].
    + destruct (IHschema Hvalid _ H) as (key & B & field & Hfield & Hv).
      now apply object_field with (key := key) (field := field).
    + destruct unknownKeys; [destruct H as (i & H); discriminate |].
      destruct (filter _ (keys fields)) as [| key rest] eqn:Hextra;
        [destruct H as (i & H); discriminate |].
      assert (Hin : In key (filter (fun k => negb (mem k (shape_keys shape)))
                                   (keys fields)))
        by (rewrite Hextra; now left).
      apply filter_In in Hin as [Hin Hnew].
      apply object_unrecognized with (key := key); [exact Hin |].
      intros Hknown. apply mem_In in Hknown. rewrite Hknown in Hnew. discriminate.
  - destruct Hfails as (i & H). discriminate.
  - apply andb_true_iff in Hvalid as [Hfields Hfield].
    apply both_fails_inv in Hfails as [H | H].
    + destruct (IHschema Hfields _ H) as (k & B & f & Hf & Hv).
      exists k, B, f. split; [now apply has_earlier | exact Hv].
    + apply at_path_fails_inv in H.
      exists key, A, schema. split; [apply has_last | now apply IHschema0].
Qed.

(** The schemas of the registered tools declare valid defaults. *)
Lemma registered_defaults_valid
  (client : LogseqClient) (remote : Remote)
  (indented compact : forall T : Type, T -> jsstring)
  (toLowerCase : jsstring -> jsstring) (t : Tool) :
  In t (tools client remote indented compact toLowerCase) ->
  defaults_valid (inputSchema t) = true.
Proof.
  unfold tools, registerPageTools, registerBlockTools, registerSearchTools,
    registerJournalTools, registerGraphTools.
  simpl. intros H.
  repeat (destruct H as [<- | H]; [reflexivity |]).
  contradiction.
Qed.

(** C5. An invocation whose input breaks a constraint that the tool's
    schema declares (a number out of its range, such as a limit above 500
    or below 1 or a negative offset; an empty string where a non-empty one
    is required; a missing required field; a field outside the recognized
    set) is rejected by the validator, and no network call is issued: the
    result is a validation failure and the list of requests sent is what
    it was. *)
Theorem invalid_input_rejected_before_any_call
  (t : Tool) (arguments : option json) (log : list Posted) :
  Violates (inputSchema t) arguments ->
  exists issues,
    parse (inputSchema t) arguments = Failure issues /\
    callTool t arguments log =
      (inr (errorResponse (validationMessage t issues)), log).
Proof.
  intros Hviolates.
  destruct (violation_fails _ _ Hviolates) as (issues & Hparse).
  exists issues. split; [exact Hparse |].
  unfold callTool. now rewrite Hparse.
Qed.

(** The violations the claim names, on the schemas of the program. *)

Lemma limit_out_of_range (fields : jsobject) (n : Z) :
  get_prop (u "limit") fields = Some (num n) -> 500 < n \/ n < 1 ->
  Violates ListPagesSchema (Some (JObj fields)).
Proof.
  intros Hlimit Hrange.
  eapply object_field with (key := u "limit").
  - do 3 apply has_earlier. apply has_last.
  - rewrite Hlimit. apply default_value.
    destruct Hrange; [now apply integer_too_big | now apply integer_too_small].
Qed.

Lemma negative_offset (fields : jsobject) (n : Z) :
  get_prop (u "offset") fields = Some (num n) -> n < 0 ->
  Violates ListPagesSchema (Some (JObj fields)).
Proof.
  intros Hoffset Hneg.
  eapply object_field with (key := u "offset").
  - do 2 apply has_earlier. apply has_last.
  - rewrite Hoffset. apply default_value. now apply integer_too_small.
Qed.

Lemma empty_required_string {R : Type} (shape : ZodShape R) (mode : UnknownKeys)
  (key : jsstring) (hi : option Z) (fields : jsobject) :
  HasField shape key (ZodString (Some 1) hi) ->
  get_prop key fields = Some (JStr []) ->
  Violates (ZodObject shape mode) (Some (JObj fields)).
Proof.
  intros Hfield Hempty. eapply object_field; [exact Hfield |].
  rewrite Hempty. apply string_too_short. reflexivity.
Qed.

Lemma missing_required_field {R A : Type} (shape : ZodShape R) (mode : UnknownKeys)
  (key : jsstring) (field : ZodType A) (fields : jsobject) :
  HasField shape key field -> required field = true ->
  get_prop key fields = None ->
  Violates (ZodObject shape mode) (Some (JObj fields)).
Proof.
  intros Hfield Hrequired Hmissing. eapply object_field; [exact Hfield |].
  rewrite Hmissing. now apply missing_required.
Qed.

Lemma unrecognized_field {R : Type} (shape : ZodShape R)
  (key : jsstring) (fields : jsobject) :
  In key (keys fields) -> ~ In key (shape_keys shape) ->
  Violates (ZodObject shape strict) (Some (JObj fields)).
Proof. apply object_unrecognized. Qed.

(** Every registered tool declares a strict object: its recognized set is
    closed. *)
Lemma registered_schemas_strict
  (client : LogseqClient) (remote : Remote)
  (indented compact : forall T : Type, T -> jsstring)
  (toLowerCase : jsstring -> jsstring) (t : Tool) :
  In t (tools client remote indented compact toLowerCase) ->
  exists shape, inputSchema t = ZodObject shape strict.
Proof.
  unfold tools, registerPageTools, registerBlockTools, registerSearchTools,
    registerJournalTools, registerGraphTools.
  simpl. intros H.
  repeat (destruct H as [<- | H]; [simpl; eexists; reflexivity |]).
  contradiction.
Qed.

Example empty_query_violates :
  Violates SearchSchema (Some (JObj [(u "query", JStr [])])).
Proof.
  apply empty_required_string with (key := u "query") (hi := Some 500).
  - apply has_last.
  - reflexivity.
Qed.

Example missing_name_violates :
  Violates GetPageSchema (Some (JObj [(u "include_children", JBool true)])).
Proof.
  apply missing_required_field
    with (key := u "name") (field := ZodString (Some 1) None).
  - apply has_earlier, has_last.
  - reflexivity.
  - reflexivity.
Qed.

(** A required string that declares no minimum length may be empty: the
    content of a block to insert. *)
Example empty_content_accepted :
  parse InsertBlockSchema
        (Some (JObj [(u "page_or_block", JStr (u "Home")); (u "content", JStr [])])) =
  Success {| InsertBlock.page_or_block := u "Home"; InsertBlock.content := [];
             InsertBlock.sibling := false; InsertBlock.before := false;
             InsertBlock.properties := None |}.
Proof. reflexivity. Qed.

(** The objects inside [blocks] are not declared strict: a key they do not
    declare is dropped, not rejected. *)
Example batch_block_extra_key_stripped :
  parse InsertBatchBlockSchema
        (Some (JObj [ (u "page_or_block", JStr (u "Home"));
                      (u "blocks",
                       JArr [ JObj [ (u "content", JStr (u "x"));
                                     (u "color", JStr (u "red")) ] ]) ])) =
  Success {| InsertBatchBlock.page_or_block := u "Home";
             InsertBatchBlock.blocks :=
               [ {| InsertBatchBlock.content := u "x";
                    InsertBatchBlock.properties := None;
                    InsertBatchBlock.children := None |} ];
             InsertBatchBlock.sibling := false |}.
Proof. reflexivity. Qed.

Example unknown_key_rejected :
  parse SearchSchema (Some (JObj [(u "query", JStr (u "x")); (u "page", num 2)])) =
  Failure [issue (unrecognized_keys [u "page"])].
Proof. reflexivity. Qed.

Lemma invalid_input_rejected_before_any_call_witness :
  Violates (inputSchema (listPagesTool promptRemote))
           (Some (JObj [(u "limit", num 501)])) /\
  exists issues,
    parse (inputSchema (listPagesTool promptRemote))
          (Some (JObj [(u "limit", num 501)])) = Failure issues /\
    callTool (listPagesTool promptRemote)
             (Some (JObj [(u "limit", num 501)])) [] =
      (inr (errorResponse
              (validationMessage
                 (listPagesTool promptRemote)
                 issues)), []).
Proof.
  assert (Hviolates :
            Violates ListPagesSchema (Some (JObj [(u "limit", num 501)]))).
  { apply limit_out_of_range with (n := 501); [reflexivity | lia]. }
  split; [exact Hviolates |].
  exact (invalid_input_rejected_before_any_call
           (listPagesTool promptRemote)
           (Some (JObj [(u "limit", num 501)])) [] Hviolates).
Defined.

Example limit_501_rejected :
  callTool (listPagesTool promptRemote)
           (Some (JObj [(u "limit", num 501)])) [] =
  (inr (errorResponse
          (u "Invalid arguments for tool logseq_list_pages: too big at /limit")), []).
Proof. reflexivity. Qed.

(** ** Remote calls *)

Lemma call_run {T : Type} (this : LogseqClient) (method : jsstring)
  (args : list json) (x : Exchange T) (log : list Posted) :
  call this method args x log = (call_outcome x, log ++ [posted this method args x]).
Proof. reflexivity. Qed.

(** One call, one POST: to the API endpoint, carrying the method name and
    the positional arguments; nothing is sent again, whatever the outcome. *)
Lemma call_posts_once {T : Type} (this : LogseqClient) (method : jsstring)
  (args : list json) (x : Exchange T) (log : list Posted) :
  exists post,
    snd (call this method args x log) = log ++ [post] /\
    post_url post = baseUrl this ++ u "/api" /\
    post_body post = {| req_method := method; req_args := args |}.
Proof. exists (posted this method args x). repeat split. Qed.

Lemma fetch_unanswered {T : Type} (x : Exchange T) :
  unanswered x REQUEST_TIMEOUT_MS = true ->
  fetch x REQUEST_TIMEOUT_MS = inl AbortError.
Proof.
  destruct x as [failed_at error | head_at status statusText body_at body];
    simpl; intros H; apply negb_true_iff in H; now rewrite H.
Qed.

Lemma call_outcome_unanswered {T : Type} (x : Exchange T) :
  unanswered x REQUEST_TIMEOUT_MS = true ->
  call_outcome x = inl (ErrorExn timeoutMessage).
Proof.
  intros H. unfold call_outcome. rewrite (fetch_unanswered x H). reflexivity.
Qed.

Lemma posted_unanswered {T : Type} (this : LogseqClient) (method : jsstring)
  (args : list json) (x : Exchange T) :
  post_unanswered (posted this method args x) = true ->
  post_thrown (posted this method args x) = Some (ErrorExn timeoutMessage).
Proof.
  unfold posted. simpl. intros H. now rewrite (call_outcome_unanswered x H).
Qed.

(** A network error that comes before the timeout is thrown as it is. *)
Lemma call_outcome_network_error {T : Type} (ms : Z) (message : jsstring) :
  ms <= REQUEST_TIMEOUT_MS ->
  call_outcome (@Unreachable T (At ms) (ErrorExn message)) = inl (ErrorExn message).
Proof.
  intros H. unfold call_outcome, fetch, within.
  destruct (Z.leb_spec ms REQUEST_TIMEOUT_MS); [reflexivity | lia].
Qed.

(** Every remote failure makes [call] throw, and nothing else does. *)
Lemma call_outcome_failure {T : Type} (x : Exchange T) :
  remoteFailure x <-> exists e, call_outcome x = inl e.
Proof.
  destruct x as [failed_at error | head_at status statusText body_at body];
    unfold call_outcome, fetch, remoteFailure, resp_ok; cbn [resp_status resp_text resp_json resp_statusText].
  - split; [intros _ | trivial].
    destruct (within failed_at REQUEST_TIMEOUT_MS).
    + destruct error as [message | name message]; [now eexists |].
      destruct (jsstring_eqb name (u "AbortError")); now eexists.
    + now eexists.
  - destruct (within head_at REQUEST_TIMEOUT_MS); cbn [resp_status resp_text resp_json].
    2: { split; [intros _; now eexists | intros _; now left]. }
    destruct (Z.leb_spec 200 status), (Z.leb_spec status 299);
      cbn [andb negb];
      try (split; [intros _; now eexists | intros _; right; left; lia]).
    destruct (within body_at REQUEST_TIMEOUT_MS).
    + destruct (body_json body) as [e | v] eqn:Hbody.
      * split; [intros _ | intros _; right; right; right; now exists e].
        destruct e as [message | name message]; [now eexists |].
        destruct (jsstring_eqb name (u "AbortError")); now eexists.
      * split.
        -- intros [Hf | [Hf | [Hf | (e & Hf)]]]; try discriminate; lia.
        -- intros (e & Hf). discriminate.
    + split; [intros _; now eexists | intros _; right; right; now left].
Qed.

(** ** The tool handlers, run *)

Create HintDb tooldefs.
#[local] Hint Unfold
  logseq_list_pages logseq_get_page logseq_get_page_content logseq_create_page
  logseq_delete_page logseq_rename_page logseq_get_page_linked_references
  logseq_get_block logseq_insert_block logseq_append_block logseq_update_block
  logseq_remove_block logseq_move_block logseq_insert_batch_blocks
  logseq_block_property logseq_search logseq_create_journal
  logseq_get_graph_info logseq_get_all_tags
  getAllPages getPage getPageBlocksTree getPageLinkedReferences createPage
  deletePage renamePage getBlock insertBlock insertBatchBlock updateBlock
  removeBlock moveBlock appendBlockInPage getBlockProperties upsertBlockProperty
  createJournalPage getAllTags search getCurrentGraph
  try_catch bind ret call : tooldefs.

(** A scrutinee that holds no case analysis of its own. *)
Ltac plain v :=
  lazymatch v with
  | context [match _ with _ => _ end] => fail
  | context [if _ then _ else _] => fail
  | _ => idtac
  end.

(** Case analysis on the outcome of every call, then on every value the
    handler branches on. *)
Ltac split_cases :=
  cbv beta iota;
  repeat (match goal with
          | |- context [call_outcome ?x] => destruct (call_outcome x) eqn:?
          end; cbv beta iota);
  repeat (match goal with
          | |- context [match ?v with _ => _ end] => plain v; destruct v eqn:?
          | |- context [if ?v then _ else _] => plain v; destruct v eqn:?
          end; cbv beta iota).

(** The request [H] speaks of threw: either it did not, or the result
    reports what it threw. *)
Ltac thrown_case H :=
  unfold posted in H; cbn [post_thrown] in H;
  repeat match goal with
         | E : call_outcome _ = _ |- _ => rewrite E in H
         end;
  first
    [ discriminate H
    | injection H as <-;
      first [ eexists _, _; split; [| reflexivity]; discriminate
            | eexists _, []; split; [| now rewrite app_nil_r]; discriminate ] ].

Ltac run_tool :=
  let params := fresh "params" in
  let log := fresh "log" in
  intros params log; cbn [handler tool_params tool_name];
  autounfold with tooldefs; split_cases;
  rewrite <- ?app_assoc; cbn [app];
  do 3 eexists; (split; [reflexivity |]);
  (split;
   [ repeat constructor; apply posted_unanswered |]);
  (split;
   [ first
       [ left; reflexivity
       | right; split; [reflexivity |];
         split;
         [ unfold posted; cbn [post_thrown];
           match goal with E : call_outcome _ = _ |- _ => now rewrite E end
         | eexists; split; reflexivity ] ]
   | let post := fresh "post" in
     let e := fresh "e" in
     let Hin := fresh "Hin" in
     let Hthrown := fresh "Hthrown" in
     intros post e Hin Hthrown;
     destruct Hin as [<- | [<- | []]] || destruct Hin as [<- | []];
     thrown_case Hthrown ]).

(** What every registered handler does on every parameter record: it
    returns a result, having sent one request, or two in the case of
    logseq_create_page after a first that succeeded; each request goes to
    the API endpoint and, left unanswered, throws the timeout error; and
    when a request threw, the result reports it. *)
Lemma handler_run
  (client : LogseqClient) (remote : Remote)
  (indented compact : forall T : Type, T -> jsstring)
  (toLowerCase : jsstring -> jsstring) (t : Tool) :
  In t (tools client remote indented compact toLowerCase) ->
  forall (params : tool_params t) (log : list Posted),
  exists (result : ToolResult) (first : Posted) (more : list Posted),
    handler t params log = (inr result, log ++ first :: more) /\
    Forall (fun post =>
              post_url post = baseUrl client ++ u "/api" /\
              (post_unanswered post = true ->
               post_thrown post = Some (ErrorExn timeoutMessage)))
           (first :: more) /\
    (more = [] \/
     (tool_name t = u "logseq_create_page" /\ post_thrown first = None /\
      exists second,
        more = [second] /\
        req_method (post_body second) = u "logseq.Editor.appendBlockInPage")) /\
    (forall post e, In post (first :: more) -> post_thrown post = Some e ->
                    reported result e).
Proof.
  unfold tools, registerPageTools, registerBlockTools, registerSearchTools,
    registerJournalTools, registerGraphTools.
  simpl. intros H.
  repeat (destruct H as [<- | H]; [run_tool |]).
  contradiction.
Qed.

Example sample_tools_registered (remote : Remote) :
  In (listPagesTool remote) (sampleTools remote) /\
  In (createPageTool remote) (sampleTools remote).
Proof. split; [now left | do 3 right; now left]. Qed.




(** X11. logseq_create_page first sends createPage with the name, the
    properties (an empty object when none were given) and the options
    redirect false, format and journal; it sends a second request,
    appendBlockInPage with the content as given, exactly when a content
    that is not empty was given and createPage did not throw; it sends
    nothing else. *)
Lemma create_page_posts
  (client : LogseqClient) (remote : Remote)
  (indented : forall T : Type, T -> jsstring)
  (params : CreatePage.Params) (log : list Posted) :
  let first :=
    posted client (u "logseq.Editor.createPage")
      [ JStr (CreatePage.name params);
        opts_or_empty (CreatePage.properties params);
        JObj [ (u "redirect", JBool false);
               (u "format", JStr (CreatePage.format params));
               (u "journal", JBool (CreatePage.journal params)) ] ]
      (on_createPage remote) in
  snd (logseq_create_page client remote indented params log) =
  log ++ first ::
    (if truthy (or_empty (CreatePage.content params)) &&
        match post_thrown first with None => true | Some _ => false end
     then [ posted client (u "logseq.Editor.appendBlockInPage")
              [ JStr (CreatePage.name params);
                JStr (or_empty (CreatePage.content params)); JObj [] ]
              (on_appendBlockInPage remote) ]
     else []).
Proof.
  intros first.
  assert (Hthrown : post_thrown first =
                    match call_outcome (on_createPage remote) with
                    | inl e => Some e
                    | inr _ => None
                    end) by reflexivity.
  rewrite Hthrown. subst first. clear Hthrown.
  autounfold with tooldefs.
  destruct (call_outcome (on_createPage remote)) as [e | page];
    cbv beta iota; [now rewrite andb_false_r |].
  destruct (CreatePage.content params) as [content |]; cbn [or_empty];
    [| reflexivity].
  destruct (truthy content); cbv beta iota; [| reflexivity].
  cbn [andb].
  destruct (call_outcome (on_appendBlockInPage remote));
    cbv beta iota; cbn [snd]; now rewrite <- app_assoc.
Qed.

(** C7. A request still unanswered when the fixed timeout of 30,000 ms
    elapses is aborted, and [call] throws the error that names the timeout,
    whatever the network would have done with the request later; a tool
    invocation that sent such a request returns a failure result whose
    message carries that timeout message. *)
Theorem unanswered_request_reports_timeout
  (client : LogseqClient) (remote : Remote)
  (indented compact : forall T : Type, T -> jsstring)
  (toLowerCase : jsstring -> jsstring)
  (T : Type) (method : jsstring) (args : list json) (x : Exchange T)
  (t : Tool) (params : tool_params t) (log news : list Posted) (post : Posted) :
  (unanswered x REQUEST_TIMEOUT_MS = true ->
   fetch x REQUEST_TIMEOUT_MS = inl AbortError /\
   call client method args x log =
     (inl (ErrorExn timeoutMessage), log ++ [posted client method args x]) /\
   timeoutMessage =
     u "Logseq API request timed out after 30000ms. Ensure Logseq is running and the HTTP API server is started.") /\
  (In t (tools client remote indented compact toLowerCase) ->
   snd (handler t params log) = log ++ news ->
   In post news -> post_unanswered post = true ->
   exists prefix suffix,
     fst (handler t params log) =
       inr (errorResponse (prefix ++ timeoutMessage ++ suffix))).
Proof.
  split.
  - intros Hlate. split; [now apply fetch_unanswered |].
    split; [| reflexivity].
    rewrite call_run. now rewrite (call_outcome_unanswered x Hlate).
  - intros Hin Hlog Hpost Hlate.
    destruct (handler_run client remote indented compact toLowerCase t Hin params log)
      as (result & first & more & Hrun & Hposts & _ & Hreported).
    rewrite Hrun in Hlog |- *. cbn [fst snd] in *.
    apply app_inv_head in Hlog. subst news.
    rewrite Forall_forall in Hposts.
    destruct (Hposts post Hpost) as [_ Hthrown].
    destruct (Hreported post _ Hpost (Hthrown Hlate)) as (prefix & suffix & _ & ->).
    now exists prefix, suffix.
Qed.

Lemma unanswered_request_reports_timeout_witness :
  (fetch (on_getAllPages silentRemote) REQUEST_TIMEOUT_MS = inl AbortError /\
   call sampleClient (u "logseq.Editor.getAllPages") [] (on_getAllPages silentRemote) [] =
     (inl (ErrorExn timeoutMessage),
      [] ++ [posted sampleClient (u "logseq.Editor.getAllPages") []
                    (on_getAllPages silentRemote)]) /\
   timeoutMessage =
     u "Logseq API request timed out after 30000ms. Ensure Logseq is running and the HTTP API server is started.") /\
  exists prefix suffix,
    fst (handler (listPagesTool silentRemote)
           defaultListParams []) =
      inr (errorResponse (prefix ++ timeoutMessage ++ suffix)).
Proof.
  pose proof
    (unanswered_request_reports_timeout
       sampleClient silentRemote sampleStringify sampleStringify sampleToLowerCase
       (list PageEntity) (u "logseq.Editor.getAllPages") []
       (on_getAllPages silentRemote)
       (listPagesTool silentRemote) defaultListParams
       []
       [posted sampleClient (u "logseq.Editor.getAllPages") []
               (on_getAllPages silentRemote)]
       (posted sampleClient (u "logseq.Editor.getAllPages") []
               (on_getAllPages silentRemote)))
    as [Hcall Htool].
  split.
  - apply Hcall. reflexivity.
  - apply Htool.
    + now left.
    + reflexivity.
    + now left.
    + reflexivity.
Defined.

Example list_pages_timeout :
  fst (callTool (listPagesTool silentRemote) (Some (JObj [])) []) =
  inr (errorResponse
         (u "Failed to list pages: Logseq API request timed out after 30000ms. Ensure Logseq is running and the HTTP API server is started.. Ensure Logseq is running with HTTP APIs enabled.")).
Proof. reflexivity. Qed.

(** A reply whose head came in time and whose body did not: with a 2xx
    status reading the body is aborted and the timeout is reported; with
    another status the failed reading of the body is ignored and the status
    is reported. *)
Example late_body :
  call_outcome (Replies (At 10) 200 (u "OK") Never (mkBody (u "[]") (inr tt))) =
    inl (ErrorExn timeoutMessage) /\
  call_outcome (Replies (At 10) 500 (u "Internal Server Error") Never
                        (mkBody (u "[]") (inr tt))) =
    inl (ErrorExn (u "Logseq API error 500: Internal Server Error")).
Proof. split; reflexivity. Qed.

(** C8. Every tool invocation returns a result and never throws.  A
    validation failure gives a marked failure result with the validation
    message, and a request that threw gives a marked failure result whose
    message carries the message of what was thrown; every remote failure
    (no answer in time, network error, status outside 2xx, malformed
    reply) makes the request throw. *)
Theorem failures_surface_as_error_results
  (client : LogseqClient) (remote : Remote)
  (indented compact : forall T : Type, T -> jsstring)
  (toLowerCase : jsstring -> jsstring)
  (t : Tool) (arguments : option json) (log : list Posted)
  (T : Type) (x : Exchange T) :
  In t (tools client remote indented compact toLowerCase) ->
  (remoteFailure x <-> exists e, call_outcome x = inl e) /\
  exists (result : ToolResult) (news : list Posted),
    callTool t arguments log = (inr result, log ++ news) /\
    (forall issues,
        parse (inputSchema t) arguments = Failure issues ->
        news = [] /\ isError result = Some true /\
        content result =
          [ {| item_type := u "text";
               item_text := u "Invalid arguments for tool " ++ tool_name t ++ u ": " ++
                            join (u "; ") (map describeIssue issues) |} ]) /\
    (forall post e,
        In post news -> post_thrown post = Some e ->
        isError result = Some true /\
        exists prefix suffix,
          prefix <> [] /\
          content result =
            [ {| item_type := u "text";
                 item_text := prefix ++ extractErrorMessage e ++ suffix |} ]).
Proof.
  intros Hin. split; [apply call_outcome_failure |].
  unfold callTool.
  destruct (parse (inputSchema t) arguments) as [params | issues].
  - destruct (handler_run client remote indented compact toLowerCase t Hin params log)
      as (result & first & more & Hrun & _ & _ & Hreported).
    exists result, (first :: more). split; [exact Hrun |].
    split; [discriminate |].
    intros post e Hpost Hthrown.
    destruct (Hreported post e Hpost Hthrown) as (prefix & suffix & Hprefix & ->).
    split; [reflexivity |]. now exists prefix, suffix.
  - exists (errorResponse (validationMessage t issues)), [].
    split; [unfold ret; now rewrite app_nil_r |].
    split; [| intros post e []].
    intros issues' [= <-]. repeat split.
Qed.

Lemma failures_surface_as_error_results_witness :
  (remoteFailure (on_getAllPages silentRemote) <->
   exists e, call_outcome (on_getAllPages silentRemote) = inl e) /\
  exists (result : ToolResult) (news : list Posted),
    callTool (listPagesTool silentRemote) (Some (JObj [])) [] = (inr result, [] ++ news) /\
    (forall issues,
        parse (inputSchema (listPagesTool silentRemote)) (Some (JObj [])) = Failure issues ->
        news = [] /\ isError result = Some true /\
        content result =
          [ {| item_type := u "text";
               item_text := u "Invalid arguments for tool " ++
                            tool_name (listPagesTool silentRemote) ++ u ": " ++
                            join (u "; ") (map describeIssue issues) |} ]) /\
    (forall post e,
        In post news -> post_thrown post = Some e ->
        isError result = Some true /\
        exists prefix suffix,
          prefix <> [] /\
          content result =
            [ {| item_type := u "text";
                 item_text := prefix ++ extractErrorMessage e ++ suffix |} ]).
Proof.
  apply (failures_surface_as_error_results
           sampleClient silentRemote sampleStringify sampleStringify
           sampleToLowerCase (listPagesTool silentRemote) (Some (JObj [])) []
           (list PageEntity) (on_getAllPages silentRemote)).
  now left.
Defined.

(** ** Pagination *)

(** The pages that remain after the journal and namespace filters. *)
Lemma filterPages_In (toLowerCase : jsstring -> jsstring)
  (params : ListPages.Params) (pages : list PageEntity) (p : PageEntity) :
  In p (filterPages toLowerCase params pages) <->
  In p pages /\
  (ListPages.journal_only params = true -> page_journal p = true) /\
  (forall namespace,
      ListPages.namespace params = Some namespace -> truthy namespace = true ->
      startsWith (toLowerCase (or_empty (page_name p)))
                 (toLowerCase namespace ++ u "/") = true).
Proof.
  unfold filterPages.
  destruct (ListPages.journal_only params);
    (destruct (ListPages.namespace params) as [ns |];
     [destruct (truthy ns) eqn:Hns |]);
    rewrite ?filter_In;
    (split;
     [ intros H; split; [tauto |]; split; [intuition congruence |];
       intros ns' Hns' Htruthy;
       first [ congruence | injection Hns' as <-; tauto ]
     | intros (Hp & Hj & Hs); repeat split; auto ]).
Qed.



Example list_pages_first_of_two :
  fst (logseq_list_pages sampleClient twoPagesRemote sampleToLowerCase
         firstOfTwoParams []) =
  inr (textResponse
         (u "**Pages** (1 of 2)" ++ LF ++ LF ++
          u "- **Projects/Alpha** (uuid: 6f1a)" ++ LF ++ LF ++
          u "_More pages available. Use offset=1 to see next batch._")).
Proof. reflexivity. Qed.

(** *** Validated parameters are within the declared bounds *)

Lemma both_success {A B C : Type} (f : A -> B -> C)
  (ra : ParseResult A) (rb : ParseResult B) (c : C) :
  both f ra rb = Success c ->
  exists a b, ra = Success a /\ rb = Success b /\ c = f a b.
Proof.
  destruct ra as [a | ia], rb as [b | ib]; simpl; try discriminate.
  intros [= <-]. now exists a, b.
Qed.

Lemma at_path_success {A : Type} (p : PathElem) (r : ParseResult A) (a : A) :
  at_path p r = Success a -> r = Success a.
Proof. destruct r; simpl; [trivial | discriminate]. Qed.

Lemma parse_int_success (lo hi : option Z) (input : option json) (n : Z) :
  parse (ZodInt lo hi) input = Success n ->
  match lo with Some l => l <= n | None => True end /\
  match hi with Some h => n <= h | None => True end.
Proof.
  simpl. destruct input as [[| | [m |] | | |] |]; try discriminate.
  unfold range_issues.
  destruct lo as [l |], hi as [h |]; simpl;
    repeat match goal with
           | |- context [?a <? ?b] => destruct (Z.ltb_spec a b); simpl
           end;
    try discriminate; intros [= <-]; split; trivial; lia.
Qed.

Lemma ListPagesSchema_bounds (input : option json) (params : ListPages.Params) :
  parse ListPagesSchema input = Success params ->
  1 <= ListPages.limit params <= 500 /\ 0 <= ListPages.offset params.
Proof.
  destruct input as [[| | | | | fields] |]; try discriminate.
  unfold ListPagesSchema. cbn [parse parse_shape].
  intros H.
  apply both_success in H as (p & _ & H & _ & ->).
  apply both_success in H as (f3 & namespace & H & _ & ->).
  apply both_success in H as (f2 & journal_only & H & _ & ->).
  apply both_success in H as (f1 & offset & H & Hoffset & ->).
  apply both_success in H as (f0 & limit & H & Hlimit & ->).
  injection H as <-. cbn [ListPages.limit ListPages.offset].
  apply at_path_success in Hlimit, Hoffset.
  assert (Hl : parse (ZodInt (Some 1) (Some 500))
                     (match get_prop (u "limit") fields with
                      | Some v => Some v
                      | None => Some (num 50)
                      end) = Success limit)
    by (destruct (get_prop (u "limit") fields); exact Hlimit).
  assert (Ho : parse (ZodInt (Some 0) None)
                     (match get_prop (u "offset") fields with
                      | Some v => Some v
                      | None => Some (num 0)
                      end) = Success offset)
    by (destruct (get_prop (u "offset") fields); exact Hoffset).
  apply parse_int_success in Hl, Ho. simpl in Hl, Ho. lia.
Qed.

(** * Further properties of the code *)

(** ** The client's base URL *)

Lemma dropSlashes_split (reversed : jsstring) :
  exists n : nat,
    reversed = repeat 47%N n ++ dropSlashes reversed /\
    (forall rest, dropSlashes reversed <> 47%N :: rest).
Proof.
  induction reversed as [| c rest (n & Hsplit & Hhead)].
  - exists 0%nat. split; [reflexivity | discriminate].
  - destruct (N.eq_dec c 47) as [-> | Hc].
    + exists (S n). simpl. split; [now rewrite <- Hsplit | exact Hhead].
    + exists 0%nat.
      assert (Hsame : dropSlashes (c :: rest) = c :: rest).
      { simpl. destruct c as [| p]; [reflexivity |].
        do 6 (destruct p as [p | p |]; try reflexivity). now elim Hc. }
      rewrite Hsame. split; [reflexivity |]. intros tail [= H _]. contradiction.
Qed.

Lemma repeat_rev {A : Type} (a : A) (n : nat) : rev (repeat a n) = repeat a n.
Proof.
  induction n as [| n IH]; [reflexivity |].
  simpl. rewrite IH. clear IH.
  induction n as [| n IH]; [reflexivity |]. simpl. now rewrite IH.
Qed.

(** X1. The client keeps the given base URL without the slashes at its
    end, and only those: the URL is the kept part followed by slashes, and
    the kept part does not end in a slash, so that the request URL never
    has two slashes before "api".  Without a URL the default is used; an
    empty URL is kept as it is, not replaced by the default. *)
Theorem new_LogseqClient_baseUrl (apiToken : jsstring) (url : option jsstring) :
  let client := new_LogseqClient apiToken url in
  token client = apiToken /\
  (exists n : nat,
      match url with Some given => given | None => DEFAULT_API_URL end =
      baseUrl client ++ repeat 47%N n) /\
  (forall front, baseUrl client <> front ++ [47%N]) /\
  baseUrl (new_LogseqClient apiToken None) = u "http://127.0.0.1:12315" /\
  baseUrl (new_LogseqClient apiToken (Some [])) = [].
Proof.
  intros client. split; [reflexivity |].
  set (given := match url with Some g => g | None => DEFAULT_API_URL end).
  assert (Hbase : baseUrl client = rev (dropSlashes (rev given))) by reflexivity.
  destruct (dropSlashes_split (rev given)) as (n & Hsplit & Hhead).
  split; [| split; [| split; reflexivity]].
  - exists n. rewrite Hbase.
    apply (f_equal (@rev _)) in Hsplit.
    rewrite rev_involutive, rev_app_distr, repeat_rev in Hsplit. exact Hsplit.
  - intros front Hend. rewrite Hbase in Hend.
    apply (f_equal (@rev _)) in Hend.
    rewrite rev_involutive, rev_app_distr in Hend. simpl in Hend.
    exact (Hhead _ Hend).
Qed.

Example baseUrl_slashes_dropped :
  baseUrl (new_LogseqClient (u "t") (Some (u "http://localhost:12315///"))) =
  u "http://localhost:12315".
Proof. reflexivity. Qed.

(** ** The outcome of a call *)

(** X2. [call] returns a value exactly when the reply's head and body
    arrive within the timeout, the status is 2xx and the body parses; the
    value is the parsed body. *)
Theorem call_outcome_success {T : Type} (x : Exchange T) (v : T) :
  call_outcome x = inr v <->
  exists head_at status statusText body_at body,
    x = Replies head_at status statusText body_at body /\
    within head_at REQUEST_TIMEOUT_MS = true /\
    200 <= status <= 299 /\
    within body_at REQUEST_TIMEOUT_MS = true /\
    body_json body = inr v.
Proof.
  split.
  - destruct x as [failed_at error | head_at status statusText body_at body];
      unfold call_outcome, fetch, resp_ok.
    + destruct (within failed_at REQUEST_TIMEOUT_MS);
        [destruct error as [m | name m];
         [| destruct (jsstring_eqb name (u "AbortError"))] |]; discriminate.
    + destruct (within head_at REQUEST_TIMEOUT_MS) eqn:Hhead; [| discriminate].
      cbn [resp_status resp_text resp_json resp_statusText].
      destruct (Z.leb_spec 200 status), (Z.leb_spec status 299);
        cbn [andb negb]; try discriminate.
      destruct (within body_at REQUEST_TIMEOUT_MS) eqn:Hbody; [| discriminate].
      destruct (body_json body) as [e | w] eqn:Hjson.
      * destruct e as [m | name m];
          [| destruct (jsstring_eqb name (u "AbortError"))]; discriminate.
      * intros [= ->]. exists head_at, status, statusText, body_at, body.
        repeat split; try assumption; lia.
  - intros (head_at & status & statusText & body_at & body
            & -> & Hhead & Hstatus & Hbody & Hjson).
    unfold call_outcome, fetch, resp_ok. rewrite Hhead.
    cbn [resp_status resp_text resp_json resp_statusText]. rewrite Hbody, Hjson.
    destruct (Z.leb_spec 200 status), (Z.leb_spec status 299); try lia.
    reflexivity.
Qed.

(** X3. A reply in time with a status outside 2xx makes [call] throw the
    error "Logseq API error <status>: <detail>", where the detail is the
    body text if the body came in time and is not empty, and the status
    text otherwise. *)
Theorem call_outcome_status_error {T : Type}
  (head_at body_at : Arrival) (status : Z) (statusText : jsstring) (body : Body T) :
  within head_at REQUEST_TIMEOUT_MS = true ->
  ~ (200 <= status <= 299) ->
  call_outcome (Replies head_at status statusText body_at body) =
  inl (ErrorExn
         (u "Logseq API error " ++ Number_toString status ++ u ": " ++
          (if within body_at REQUEST_TIMEOUT_MS && truthy (body_text body)
           then body_text body else statusText))).
Proof.
  intros Hhead Hstatus. unfold call_outcome, fetch, resp_ok. rewrite Hhead.
  cbn [resp_status resp_text resp_json resp_statusText].
  assert (Hok : (200 <=? status) && (status <=? 299) = false).
  { destruct (Z.leb_spec 200 status), (Z.leb_spec status 299);
      try reflexivity; lia. }
  rewrite Hok. cbn [negb].
  destruct (within body_at REQUEST_TIMEOUT_MS); cbn [andb]; [| reflexivity].
  destruct (truthy (body_text body)); reflexivity.
Qed.

Lemma call_outcome_status_error_witness :
  call_outcome (Replies (At 12) 401 (u "Unauthorized") (At 13)
                        (mkBody (u "bad token") (@inr JsExn unit tt))) =
  inl (ErrorExn
         (u "Logseq API error " ++ Number_toString 401 ++ u ": " ++
          (if within (At 13) REQUEST_TIMEOUT_MS &&
              truthy (body_text (mkBody (u "bad token") (@inr JsExn unit tt)))
           then body_text (mkBody (u "bad token") (@inr JsExn unit tt))
           else u "Unauthorized"))).
Proof.
  apply (call_outcome_status_error (At 12) (At 13) 401 (u "Unauthorized")
           (mkBody (u "bad token") (@inr JsExn unit tt))).
  - reflexivity.
  - lia.
Defined.

(** ** What every handler returns and sends *)

Ltac in_list := repeat (first [left; reflexivity | right]).

Ltac no_throw Hnone :=
  first
    [ let Hp := fresh in
      pose proof (Hnone _ (or_introl eq_refl)) as Hp;
      unfold posted in Hp; cbn [post_thrown] in Hp;
      repeat match goal with
             | E : call_outcome _ = _ |- _ => rewrite E in Hp
             end;
      discriminate Hp
    | let Hp := fresh in
      pose proof (Hnone _ (or_intror (or_introl eq_refl))) as Hp;
      unfold posted in Hp; cbn [post_thrown] in Hp;
      repeat match goal with
             | E : call_outcome _ = _ |- _ => rewrite E in Hp
             end;
      discriminate Hp ].

Ltac survey_tool :=
  let params := fresh "params" in
  let log := fresh "log" in
  intros params log; cbn [handler tool_params tool_name];
  autounfold with tooldefs; split_cases;
  rewrite <- ?app_assoc; cbn [app];
  do 2 eexists; (split; [reflexivity |]);
  (split; [first [left; eexists; reflexivity | right; eexists; reflexivity] |]);
  (split; [repeat (apply Forall_cons; [reflexivity |]); apply Forall_nil |]);
  (split;
   [ let Hnone := fresh "Hnone" in
     let Herr := fresh "Herr" in
     intros Hnone Herr;
     first [ discriminate Herr | solve [in_list] | exfalso; no_throw Hnone ]
   | let a := fresh "a" in
     let Ha := fresh "Ha" in
     let Hro := fresh "Hro" in
     intros a Ha Hro; vm_compute in Ha; injection Ha as <-;
     first [ discriminate Hro
           | repeat (apply Forall_cons;
                     [ unfold posted, queryMethods; cbn [post_body req_method];
                       solve [in_list] |]);
             apply Forall_nil ] ]).

(** What every registered handler returns on every parameter record: a
    text response or an error response; every request carries the client's
    bearer token; a failure result without a request that threw comes from
    one of three tools only; and a tool annotated read-only sends query
    methods only. *)
Lemma handler_survey
  (client : LogseqClient) (remote : Remote)
  (indented compact : forall T : Type, T -> jsstring)
  (toLowerCase : jsstring -> jsstring) (t : Tool) :
  In t (tools client remote indented compact toLowerCase) ->
  forall (params : tool_params t) (log : list Posted),
  exists (result : ToolResult) (news : list Posted),
    handler t params log = (inr result, log ++ news) /\
    ((exists text, result = textResponse text) \/
     (exists message, result = errorResponse message)) /\
    Forall (fun post => post_authorization post = u "Bearer " ++ token client) news /\
    ((forall post, In post news -> post_thrown post = None) ->
     isError result = Some true ->
     In (tool_name t)
        [u "logseq_get_page"; u "logseq_get_block"; u "logseq_get_graph_info"]) /\
    (forall a,
        annotationsOf (tool_name t) annotations = Some a ->
        readOnlyHint a = true ->
        Forall (fun post => In (req_method (post_body post)) queryMethods) news).
Proof.
  intros H.
  unfold tools, registerPageTools, registerBlockTools, registerSearchTools,
    registerJournalTools, registerGraphTools in H.
  simpl in H.
  repeat (destruct H as [<- | H]; [survey_tool |]).
  contradiction.
Qed.

(** X4. Every registered handler returns, on every parameter record, a
    result with exactly one content item, of type "text"; its [isError]
    field is absent or true, never false; and when it is absent the text
    went through [truncate]. *)
Theorem tool_result_shape
  (client : LogseqClient) (remote : Remote)
  (indented compact : forall T : Type, T -> jsstring)
  (toLowerCase : jsstring -> jsstring)
  (t : Tool) (params : tool_params t) (log : list Posted) :
  In t (tools client remote indented compact toLowerCase) ->
  exists (result : ToolResult) (text : jsstring),
    fst (handler t params log) = inr result /\
    content result = [ {| item_type := u "text"; item_text := text |} ] /\
    isError result <> Some false /\
    (isError result = None -> exists raw, text = truncate raw).
Proof.
  intros Hin.
  destruct (handler_survey client remote indented compact toLowerCase t Hin params log)
    as (result & news & Hrun & [(raw & ->) | (message & ->)] & _).
  - exists (textResponse raw), (truncate raw). rewrite Hrun.
    repeat split; [discriminate | now exists raw].
  - exists (errorResponse message), message. rewrite Hrun.
    repeat split; discriminate.
Qed.

Lemma tool_result_shape_witness :
  exists (result : ToolResult) (text : jsstring),
    fst (handler (listPagesTool promptRemote) defaultListParams []) = inr result /\
    content result = [ {| item_type := u "text"; item_text := text |} ] /\
    isError result <> Some false /\
    (isError result = None -> exists raw, text = truncate raw).
Proof.
  apply (tool_result_shape sampleClient promptRemote sampleStringify sampleStringify
           sampleToLowerCase (listPagesTool promptRemote) defaultListParams []).
  now left.
Defined.

(** X5. Every request a registered handler sends goes to the API endpoint
    under the client's base URL and carries the client's token as bearer
    authorization. *)
Theorem requests_authorized
  (client : LogseqClient) (remote : Remote)
  (indented compact : forall T : Type, T -> jsstring)
  (toLowerCase : jsstring -> jsstring)
  (t : Tool) (params : tool_params t) (log news : list Posted) (post : Posted) :
  In t (tools client remote indented compact toLowerCase) ->
  snd (handler t params log) = log ++ news ->
  In post news ->
  post_url post = baseUrl client ++ u "/api" /\
  post_authorization post = u "Bearer " ++ token client.
Proof.
  intros Hin Hlog Hpost.
  destruct (handler_survey client remote indented compact toLowerCase t Hin params log)
    as (result & news1 & Hrun1 & _ & Hauth & _).
  destruct (handler_run client remote indented compact toLowerCase t Hin params log)
    as (result2 & first & more & Hrun2 & Hurl & _).
  rewrite Hrun1 in Hlog. cbn [snd] in Hlog. apply app_inv_head in Hlog. subst news1.
  rewrite Hrun1 in Hrun2. injection Hrun2 as _ Hsame.
  apply app_inv_head in Hsame. subst news.
  rewrite Forall_forall in Hauth, Hurl.
  split; [now apply Hurl | now apply Hauth].
Qed.

Lemma requests_authorized_witness :
  post_url (posted sampleClient (u "logseq.Editor.getAllPages") []
                   (on_getAllPages promptRemote)) =
    baseUrl sampleClient ++ u "/api" /\
  post_authorization (posted sampleClient (u "logseq.Editor.getAllPages") []
                             (on_getAllPages promptRemote)) =
    u "Bearer " ++ token sampleClient.
Proof.
  apply (requests_authorized sampleClient promptRemote sampleStringify
           sampleStringify sampleToLowerCase (listPagesTool promptRemote)
           defaultListParams []
           [posted sampleClient (u "logseq.Editor.getAllPages") []
                   (on_getAllPages promptRemote)]).
  - now left.
  - reflexivity.
  - now left.
Defined.



(** A reply that is null: the request succeeded and the result is a
    marked failure all the same. *)
Example get_page_not_found (client : LogseqClient) (remote : Remote)
  (indented : forall T : Type, T -> jsstring) (params : GetPage.Params) :
  call_outcome (on_getPage remote) = inr None ->
  fst (logseq_get_page client remote indented params []) =
  inr (errorResponse
         (u "Page '" ++ GetPage.name params ++
          u "' not found. Use logseq_list_pages to see available pages.")).
Proof.
  intros H. unfold logseq_get_page, try_catch, bind, getPage. rewrite call_run.
  now rewrite H.
Qed.

Example annotations_cover_tools (client : LogseqClient) (remote : Remote)
  (indented compact : forall T : Type, T -> jsstring)
  (toLowerCase : jsstring -> jsstring) :
  map fst annotations =
  map tool_name (tools client remote indented compact toLowerCase).
Proof. reflexivity. Qed.

(** X7. A tool registered with [readOnlyHint: true] sends exactly one
    request, and its method is one of the query methods (getAllPages,
    getPage, getPageBlocksTree, getPageLinkedReferences, getBlock,
    getBlockProperties, getAllTags, search, getCurrentGraph): it never
    calls a method that creates, changes, moves or deletes. *)
Theorem read_only_tools_only_query
  (client : LogseqClient) (remote : Remote)
  (indented compact : forall T : Type, T -> jsstring)
  (toLowerCase : jsstring -> jsstring)
  (t : Tool) (params : tool_params t) (log : list Posted) (a : Annotations) :
  In t (tools client remote indented compact toLowerCase) ->
  annotationsOf (tool_name t) annotations = Some a ->
  readOnlyHint a = true ->
  exists post,
    snd (handler t params log) = log ++ [post] /\
    In (req_method (post_body post)) queryMethods.
Proof.
  intros Hin Ha Hro.
  destruct (handler_survey client remote indented compact toLowerCase t Hin params log)
    as (result1 & news & Hrun1 & _ & _ & _ & Hquery).
  destruct (handler_run client remote indented compact toLowerCase t Hin params log)
    as (result2 & first & more & Hrun2 & _ & Hcount & _).
  rewrite Hrun1 in Hrun2. injection Hrun2 as _ Hsame.
  apply app_inv_head in Hsame. subst news.
  specialize (Hquery a Ha Hro).
  destruct Hcount as [-> | (Hname & _)].
  - exists first. rewrite Hrun1. split; [reflexivity |].
    now inversion Hquery.
  - rewrite Hname in Ha. vm_compute in Ha. injection Ha as <-. discriminate.
Qed.

Lemma read_only_tools_only_query_witness :
  exists post,
    snd (handler (listPagesTool promptRemote) defaultListParams []) = [] ++ [post] /\
    In (req_method (post_body post)) queryMethods.
Proof.
  apply (read_only_tools_only_query sampleClient promptRemote sampleStringify
           sampleStringify sampleToLowerCase (listPagesTool promptRemote)
           defaultListParams [] (mkAnnotations true false true false)).
  - now left.
  - reflexivity.
  - reflexivity.
Defined.

(** X8. An error message is never truncated: when a request threw, the
    text of the result contains the whole message of what was thrown, so
    it is longer than that message, and longer than the character limit
    whenever the message reaches it. *)
Theorem error_text_not_truncated
  (client : LogseqClient) (remote : Remote)
  (indented compact : forall T : Type, T -> jsstring)
  (toLowerCase : jsstring -> jsstring)
  (t : Tool) (params : tool_params t) (log news : list Posted)
  (post : Posted) (e : JsExn) :
  In t (tools client remote indented compact toLowerCase) ->
  snd (handler t params log) = log ++ news ->
  In post news -> post_thrown post = Some e ->
  exists (result : ToolResult) (prefix suffix : jsstring),
    fst (handler t params log) = inr result /\
    content result =
      [ {| item_type := u "text";
           item_text := prefix ++ extractErrorMessage e ++ suffix |} ] /\
    str_length (extractErrorMessage e) <
      str_length (prefix ++ extractErrorMessage e ++ suffix) /\
    (CHARACTER_LIMIT <= str_length (extractErrorMessage e) ->
     CHARACTER_LIMIT < str_length (prefix ++ extractErrorMessage e ++ suffix)).
Proof.
  intros Hin Hlog Hpost Hthrown.
  destruct (handler_run client remote indented compact toLowerCase t Hin params log)
    as (result & first & more & Hrun & _ & _ & Hreported).
  rewrite Hrun in Hlog |- *. cbn [fst snd] in *.
  apply app_inv_head in Hlog. subst news.
  destruct (Hreported post e Hpost Hthrown) as (prefix & suffix & Hprefix & ->).
  exists (errorResponse (prefix ++ extractErrorMessage e ++ suffix)), prefix, suffix.
  split; [reflexivity |]. split; [reflexivity |].
  assert (Hlonger : str_length (extractErrorMessage e) <
                    str_length (prefix ++ extractErrorMessage e ++ suffix)).
  { rewrite !str_length_app. unfold str_length.
    destruct prefix; [congruence | simpl List.length; lia]. }
  split; [exact Hlonger | lia].
Qed.

Lemma error_text_not_truncated_witness :
  exists (result : ToolResult) (prefix suffix : jsstring),
    fst (handler (listPagesTool silentRemote) defaultListParams []) = inr result /\
    content result =
      [ {| item_type := u "text";
           item_text :=
             prefix ++ extractErrorMessage (ErrorExn timeoutMessage) ++ suffix |} ] /\
    str_length (extractErrorMessage (ErrorExn timeoutMessage)) <
      str_length (prefix ++ extractErrorMessage (ErrorExn timeoutMessage) ++ suffix) /\
    (CHARACTER_LIMIT <= str_length (extractErrorMessage (ErrorExn timeoutMessage)) ->
     CHARACTER_LIMIT <
       str_length (prefix ++ extractErrorMessage (ErrorExn timeoutMessage) ++ suffix)).
Proof.
  apply (error_text_not_truncated sampleClient silentRemote sampleStringify
           sampleStringify sampleToLowerCase (listPagesTool silentRemote)
           defaultListParams []
           [posted sampleClient (u "logseq.Editor.getAllPages") []
                   (on_getAllPages silentRemote)]
           (posted sampleClient (u "logseq.Editor.getAllPages") []
                   (on_getAllPages silentRemote))).
  - now left.
  - reflexivity.
  - now left.
  - reflexivity.
Defined.

(** X9. When logseq_create_page has created the page and the request that
    appends the initial content throws, the result is a marked failure
    that reports what was thrown: the page stays created, and both
    requests were sent. *)
Theorem create_page_append_failure
  (client : LogseqClient) (remote : Remote)
  (indented : forall T : Type, T -> jsstring)
  (params : CreatePage.Params) (log : list Posted)
  (page : PageEntity) (content : jsstring) (e : JsExn) :
  call_outcome (on_createPage remote) = inr page ->
  CreatePage.content params = Some content -> truthy content = true ->
  call_outcome (on_appendBlockInPage remote) = inl e ->
  fst (logseq_create_page client remote indented params log) =
    inr (errorResponse (u "Failed to create page: " ++ extractErrorMessage e)) /\
  map (fun post => (req_method (post_body post), post_thrown post))
      (skipn (List.length log)
             (snd (logseq_create_page client remote indented params log))) =
    [ (u "logseq.Editor.createPage", None);
      (u "logseq.Editor.appendBlockInPage", Some e) ].
Proof.
  intros Hcreate Hcontent Htruthy Happend.
  autounfold with tooldefs. rewrite Hcreate, Hcontent, Htruthy, Happend.
  cbv beta iota. cbn [fst snd]. split; [reflexivity |].
  rewrite <- app_assoc, skipn_app, skipn_all, Nat.sub_diag. cbn [app skipn map].
  unfold posted. cbn [post_body req_method post_thrown].
  now rewrite Hcreate, Happend.
Qed.

Lemma create_page_append_failure_witness :
  fst (logseq_create_page sampleClient appendFailsRemote sampleStringify
         pageWithContentParams []) =
    inr (errorResponse
           (u "Failed to create page: " ++
            extractErrorMessage (ErrorExn (u "fetch failed")))) /\
  map (fun post => (req_method (post_body post), post_thrown post))
      (skipn (List.length (@nil Posted))
             (snd (logseq_create_page sampleClient appendFailsRemote sampleStringify
                     pageWithContentParams []))) =
    [ (u "logseq.Editor.createPage", None);
      (u "logseq.Editor.appendBlockInPage", Some (ErrorExn (u "fetch failed"))) ].
Proof.
  apply (create_page_append_failure sampleClient appendFailsRemote sampleStringify
           pageWithContentParams [] samplePage (u "first note")
           (ErrorExn (u "fetch failed"))); reflexivity.
Defined.

(** ** Truncation, further *)

(** X10. [truncate] never changes the first 100,000 characters of a text
    and leaves a text within the limit as it is; a text over the limit
    comes out 44 characters plus the digits of the omitted count longer
    than the limit, so a truncated response always exceeds the character
    limit. *)
Theorem truncate_prefix_and_length (text : jsstring) :
  firstn (Z.to_nat CHARACTER_LIMIT) (truncate text) =
    firstn (Z.to_nat CHARACTER_LIMIT) text /\
  (if str_length text <=? CHARACTER_LIMIT
   then truncate text = text
   else str_length (truncate text) =
          CHARACTER_LIMIT + 44 +
          str_length (Number_toString (str_length text - CHARACTER_LIMIT)) /\
        CHARACTER_LIMIT < str_length (truncate text)).
Proof.
  unfold truncate.
  destruct (Z.leb_spec (str_length text) CHARACTER_LIMIT) as [Hle | Hgt].
  - split; reflexivity.
  - rewrite slice_from by (unfold CHARACTER_LIMIT; lia).
    rewrite Z.sub_0_r. simpl (Z.to_nat 0). simpl (skipn 0 _).
    assert (Hkept : List.length (firstn (Z.to_nat CHARACTER_LIMIT) text) =
                    Z.to_nat CHARACTER_LIMIT).
    { rewrite length_firstn. unfold str_length in Hgt. lia. }
    split.
    + rewrite firstn_app, Hkept, Nat.sub_diag, firstn_O, app_nil_r.
      apply firstn_firstn_min || (rewrite firstn_firstn; f_equal; lia).
    + assert (Hlen : str_length
                       (firstn (Z.to_nat CHARACTER_LIMIT) text ++
                        LF ++ LF ++ u "[Response truncated " ++ [8212%N] ++ u " " ++
                        Number_toString (str_length text - CHARACTER_LIMIT) ++
                        u " characters omitted]") =
                     CHARACTER_LIMIT + 44 +
                     str_length (Number_toString (str_length text - CHARACTER_LIMIT))).
      { rewrite !str_length_app. unfold str_length at 1. rewrite Hkept.
        change (str_length LF) with 1.
        change (str_length (u "[Response truncated ")) with 20.
        change (str_length [8212%N]) with 1.
        change (str_length (u " ")) with 1.
        change (str_length (u " characters omitted]")) with 20.
        unfold CHARACTER_LIMIT. lia. }
      rewrite Hlen. split; [reflexivity |].
      unfold str_length at 1. lia.
Qed.

Example truncate_can_lengthen :
  str_length longText = 100001 /\ str_length (truncate longText) = 100045.
Proof. split; vm_compute; reflexivity. Qed.

(** ** The block-tree renderer, further *)

Lemma blockLines_quiet (depth : nat) (b : BlockEntity) :
  blockLines depth b = [] <-> quiet b = true.
Proof.
  rewrite blockLines_unfold. unfold quiet, childrenLines, blank.
  destruct (block_content b) as [c |]; cbn [option_map];
    [rewrite truthy_trim; destruct (forallb isWhiteSpace c) |];
    destruct (block_children b) as [[| child others] |];
    cbn [negb andb app]; split; (discriminate || reflexivity).
Qed.

Lemma flat_map_quiet (depth : nat) (blocks : list BlockEntity) :
  flat_map (blockLines depth) blocks = [] <-> forallb quiet blocks = true.
Proof.
  induction blocks as [| b rest IH]; simpl; [tauto |].
  rewrite andb_true_iff, <- IH, <- blockLines_quiet.
  split.
  - intros H. now apply app_eq_nil in H.
  - intros [-> ->]. reflexivity.
Qed.

(** X12. Rendering two lists of blocks one after the other: when each list
    has a block that is not quiet (one with content that is not blank, or
    with children), the rendering is the two renderings joined by a line
    feed; when the blocks of one list are all quiet, it is the rendering
    of the other list, with no empty line for the quiet blocks. *)
Theorem renderBlockTree_app (first second : list BlockEntity) (depth : nat) :
  renderBlockTree (first ++ second) depth =
  if forallb quiet first then renderBlockTree second depth
  else if forallb quiet second then renderBlockTree first depth
  else renderBlockTree first depth ++ LF ++ renderBlockTree second depth.
Proof.
  unfold renderBlockTree. rewrite flat_map_app.
  destruct (forallb quiet first) eqn:Hfirst.
  - apply flat_map_quiet with (depth := depth) in Hfirst. now rewrite Hfirst.
  - destruct (forallb quiet second) eqn:Hsecond.
    + apply flat_map_quiet with (depth := depth) in Hsecond.
      now rewrite Hsecond, app_nil_r.
    + apply join_app; intros Hnil;
        apply flat_map_quiet in Hnil; congruence.
Qed.

Example render_quiet_blocks_skipped :
  renderBlockTree [leaf "  "; leaf "A"; leaf ""; leaf "B"; leaf " "] 0 =
  u "- A" ++ LF ++ u "- B".
Proof. reflexivity. Qed.

(** ** Pagination, further *)

Lemma listPagesLines_parts (params : ListPages.Params) (pages : list PageEntity) :
  listPagesLines params pages =
  [ u "**Pages** (" ++ length_string (shownPages params pages) ++ u " of " ++
    Number_toString (Z.of_nat (List.length pages)) ++ u ")";
    [] ] ++
  map formatPageSummary (shownPages params pages) ++
  (if ListPages.offset params + ListPages.limit params <? Z.of_nat (List.length pages)
   then [ []; morePagesNote params ]
   else []).
Proof.
  unfold listPagesLines, shownPages, morePagesNote.
  destruct (_ <? _); [| now rewrite app_nil_r].
  now rewrite <- app_assoc.
Qed.

Lemma startsWith_longer (s : jsstring) (c : code_unit) :
  startsWith s (s ++ [c]) = false.
Proof.
  unfold startsWith. destruct (jsstring_eqb _ _) eqn:H; [| reflexivity].
  apply jsstring_eqb_eq in H. apply (f_equal (@List.length _)) in H.
  rewrite length_firstn, length_app in H. simpl in H. lia.
Qed.

(** X13. The namespace filter keeps the pages below the namespace only: a
    page whose lower-cased name is the lower-cased namespace itself is
    never listed under that namespace. *)
Theorem namespace_root_not_listed (toLowerCase : jsstring -> jsstring)
  (params : ListPages.Params) (pages : list PageEntity)
  (namespace : jsstring) (p : PageEntity) :
  ListPages.namespace params = Some namespace ->
  truthy namespace = true ->
  toLowerCase (or_empty (page_name p)) = toLowerCase namespace ->
  ~ In p (filterPages toLowerCase params pages).
Proof.
  intros Hns Htruthy Hsame Hin.
  apply filterPages_In in Hin as (_ & _ & Hprefix).
  specialize (Hprefix namespace Hns Htruthy).
  rewrite Hsame in Hprefix.
  change (u "/") with [47%N] in Hprefix.
  now rewrite startsWith_longer in Hprefix.
Qed.

Lemma namespace_root_not_listed_witness :
  ~ In samplePage
       (filterPages sampleToLowerCase
          {| ListPages.limit := 50; ListPages.offset := 0;
             ListPages.journal_only := false;
             ListPages.namespace := Some (u "Projects/Alpha") |}
          [samplePage]).
Proof.
  apply (namespace_root_not_listed sampleToLowerCase _ [samplePage]
           (u "Projects/Alpha") samplePage); reflexivity.
Defined.

Example namespace_children_listed :
  filterPages sampleToLowerCase
    {| ListPages.limit := 50; ListPages.offset := 0;
       ListPages.journal_only := false; ListPages.namespace := Some (u "PROJECTS") |}
    [samplePage] = [samplePage].
Proof. reflexivity. Qed.

Lemma firstn_plus {A : Type} (n m : nat) (l : list A) :
  firstn (n + m) l = firstn n l ++ firstn m (skipn n l).
Proof.
  revert l. induction n as [| n IH]; intros l; [reflexivity |].
  destruct l as [| x l]; simpl; [now rewrite firstn_nil | now rewrite IH].
Qed.

Lemma slice_app {A : Type} (l : list A) (a b c : Z) :
  0 <= a -> a <= b -> b <= c ->
  slice l a b ++ slice l b c = slice l a c.
Proof.
  intros Ha Hab Hbc. rewrite !slice_from by lia.
  replace (Z.to_nat b) with (Z.to_nat (b - a) + Z.to_nat a)%nat by lia.
  replace (Z.to_nat (c - a)) with (Z.to_nat (b - a) + Z.to_nat (c - b))%nat by lia.
  now rewrite <- skipn_skipn, firstn_plus.
Qed.

(** X14. Listings follow one another without gap or overlap: the pages
    shown from an offset with a limit, followed by the pages shown from
    where that listing ended, are the pages shown from the first offset
    with the two limits added. *)
Theorem windows_tile (params : ListPages.Params) (pages : list PageEntity)
  (offset limit next : Z) :
  0 <= offset -> 0 <= limit -> 0 <= next ->
  shownPages (window params offset limit) pages ++
  shownPages (window params (offset + limit) next) pages =
  shownPages (window params offset (limit + next)) pages.
Proof.
  intros Ho Hl Hn. unfold shownPages, window.
  cbn [ListPages.offset ListPages.limit].
  rewrite slice_app by lia. f_equal. lia.
Qed.

Lemma windows_tile_witness :
  shownPages (window defaultListParams 0 1) [samplePage; samplePage; samplePage] ++
  shownPages (window defaultListParams (0 + 1) 2) [samplePage; samplePage; samplePage] =
  shownPages (window defaultListParams 0 (1 + 2)) [samplePage; samplePage; samplePage].
Proof.
  apply (windows_tile defaultListParams [samplePage; samplePage; samplePage] 0 1 2);
    lia.
Defined.

Lemma morePagesNote_head (params : ListPages.Params) :
  exists rest, morePagesNote params = 95%N :: rest.
Proof. unfold morePagesNote. now eexists. Qed.

Lemma formatPageSummary_head (page : PageEntity) :
  exists rest, formatPageSummary page = 45%N :: rest.
Proof. unfold formatPageSummary. now eexists. Qed.

(** X15. The note that more pages are available stands in a listing
    exactly when the listing from the offset it names, with any limit from
    1 on, shows at least one page. *)
Theorem note_iff_next_window (params : ListPages.Params) (pages : list PageEntity)
  (next : Z) :
  1 <= ListPages.limit params -> 0 <= ListPages.offset params -> 1 <= next ->
  (In (morePagesNote params) (listPagesLines params pages) <->
   shownPages
     (window params (ListPages.offset params + ListPages.limit params) next)
     pages <> []).
Proof.
  intros Hlimit Hoffset Hnext.
  assert (Hlen :
            Z.of_nat
              (List.length
                 (shownPages
                    (window params
                       (ListPages.offset params + ListPages.limit params) next)
                    pages)) =
            Z.min next
              (Z.max 0 (Z.of_nat (List.length pages) -
                        (ListPages.offset params + ListPages.limit params)))).
  { unfold shownPages, window. cbn [ListPages.offset ListPages.limit].
    rewrite slice_length by lia. f_equal. lia. }
  rewrite listPagesLines_parts.
  destruct (Z.ltb_spec (ListPages.offset params + ListPages.limit params)
                       (Z.of_nat (List.length pages))) as [Hmore | Hlast].
  - split.
    + intros _ Hnil. rewrite Hnil in Hlen. simpl in Hlen. lia.
    + intros _. apply in_or_app. right. apply in_or_app. right. right. now left.
  - split.
    + intros Hin. exfalso. rewrite app_nil_r in Hin.
      destruct (morePagesNote_head params) as (rest & Hnote). rewrite Hnote in Hin.
      destruct Hin as [Hheader | [Hblank | Hsummary]]; try discriminate.
      apply in_map_iff in Hsummary as (page & Hpage & _).
      destruct (formatPageSummary_head page) as (tail & Hhead).
      rewrite Hhead in Hpage. discriminate.
    + intros Hshown. exfalso. apply Hshown.
      apply length_zero_iff_nil. lia.
Qed.

Lemma note_iff_next_window_witness :
  In (morePagesNote firstOfTwoParams)
     (listPagesLines firstOfTwoParams [samplePage; samplePage]) <->
  shownPages
    (window firstOfTwoParams
       (ListPages.offset firstOfTwoParams + ListPages.limit firstOfTwoParams) 50)
    [samplePage; samplePage] <> [].
Proof.
  apply (note_iff_next_window firstOfTwoParams [samplePage; samplePage] 50);
    simpl; lia.
Defined.

(** X16. An offset at or beyond the number of filtered pages gives a
    listing with the header "(0 of total)", an empty line, no page and no
    note: it is not an error. *)
Theorem listing_beyond_the_end (params : ListPages.Params) (pages : list PageEntity) :
  1 <= ListPages.limit params ->
  Z.of_nat (List.length pages) <= ListPages.offset params ->
  listPagesLines params pages =
  [ u "**Pages** (0 of " ++ Number_toString (Z.of_nat (List.length pages)) ++ u ")";
    [] ].
Proof.
  intros Hlimit Hbeyond.
  assert (Hshown : shownPages params pages = []).
  { apply length_zero_iff_nil. unfold shownPages.
    assert (H := slice_length pages (ListPages.offset params)
                   (ListPages.offset params + ListPages.limit params)).
    lia. }
  rewrite listPagesLines_parts, Hshown.
  destruct (Z.ltb_spec (ListPages.offset params + ListPages.limit params)
                       (Z.of_nat (List.length pages))); [lia |].
  reflexivity.
Qed.

Lemma listing_beyond_the_end_witness :
  listPagesLines (window defaultListParams 2 50) [samplePage; samplePage] =
  [ u "**Pages** (0 of " ++
    Number_toString (Z.of_nat (List.length [samplePage; samplePage])) ++ u ")";
    [] ].
Proof.
  apply (listing_beyond_the_end (window defaultListParams 2 50)
           [samplePage; samplePage]); simpl; lia.
Defined.

(** ** Validation, further *)

(** X17. For every registered tool the validator rejects exactly the
    inputs that break a constraint the tool's schema declares: nothing
    else is rejected, and nothing that breaks one is accepted. *)
Theorem rejected_iff_violates
  (client : LogseqClient) (remote : Remote)
  (indented compact : forall T : Type, T -> jsstring)
  (toLowerCase : jsstring -> jsstring) (t : Tool) (input : option json) :
  In t (tools client remote indented compact toLowerCase) ->
  (fails (parse (inputSchema t) input) <-> Violates (inputSchema t) input).
Proof.
  intros Hin. split.
  - apply rejection_violates.
    now apply (registered_defaults_valid client remote indented compact toLowerCase).
  - apply violation_fails.
Qed.

Lemma rejected_iff_violates_witness :
  fails (parse (inputSchema (listPagesTool promptRemote))
               (Some (JObj [(u "limit", num 0)]))) <->
  Violates (inputSchema (listPagesTool promptRemote))
           (Some (JObj [(u "limit", num 0)])).
Proof.
  apply (rejected_iff_violates sampleClient promptRemote sampleStringify
           sampleStringify sampleToLowerCase (listPagesTool promptRemote)).
  now left.
Defined.

(** X18. Every registered tool rejects arguments that are not an object
    (also arguments left out) and every object that has a key the tool's
    schema does not declare. *)
Theorem tools_reject_foreign_arguments
  (client : LogseqClient) (remote : Remote)
  (indented compact : forall T : Type, T -> jsstring)
  (toLowerCase : jsstring -> jsstring) (t : Tool) :
  In t (tools client remote indented compact toLowerCase) ->
  exists shape,
    inputSchema t = ZodObject shape strict /\
    (forall input,
        (forall fields, input <> Some (JObj fields)) ->
        fails (parse (inputSchema t) input)) /\
    (forall fields key,
        In key (keys fields) -> ~ In key (shape_keys shape) ->
        fails (parse (inputSchema t) (Some (JObj fields)))).
Proof.
  intros Hin.
  destruct (registered_schemas_strict client remote indented compact toLowerCase t Hin)
    as (shape & Hschema).
  exists shape. split; [exact Hschema |]. rewrite Hschema. split.
  - intros input Hnot. apply violation_fails.
    destruct input as [v |].
    + apply object_expected. intros fields ->. now apply (Hnot fields).
    + now apply missing_required.
  - intros fields key Hkey Hnew. apply violation_fails.
    now apply object_unrecognized with (key := key).
Qed.

Lemma tools_reject_foreign_arguments_witness :
  exists shape,
    inputSchema (listPagesTool promptRemote) = ZodObject shape strict /\
    (forall input,
        (forall fields, input <> Some (JObj fields)) ->
        fails (parse (inputSchema (listPagesTool promptRemote)) input)) /\
    (forall fields key,
        In key (keys fields) -> ~ In key (shape_keys shape) ->
        fails (parse (inputSchema (listPagesTool promptRemote)) (Some (JObj fields)))).
Proof.
  apply (tools_reject_foreign_arguments sampleClient promptRemote sampleStringify
           sampleStringify sampleToLowerCase (listPagesTool promptRemote)).
  now left.
Defined.

Lemma parse_string_success (lo hi : option Z) (input : option json) (s : jsstring) :
  parse (ZodString lo hi) input = Success s ->
  input = Some (JStr s) /\
  match lo with Some l => l <= str_length s | None => True end /\
  match hi with Some h => str_length s <= h | None => True end.
Proof.
  simpl. destruct input as [[| | | t | |] |]; try discriminate.
  unfold range_issues.
  destruct lo as [l |], hi as [h |]; simpl;
    repeat match goal with
           | |- context [?a <? ?b] => destruct (Z.ltb_spec a b); simpl
           end;
    try discriminate; intros [= <-]; repeat split; trivial; lia.
Qed.

Lemma strict_success_keys {R : Type} (shape : ZodShape R) (fields : jsobject) (r : R) :
  parse (ZodObject shape strict) (Some (JObj fields)) = Success r ->
  parse_shape shape fields = Success r /\
  forall key, In key (keys fields) -> In key (shape_keys shape).
Proof.
  cbn [parse]. intros H.
  apply both_success in H as (r' & [] & Hshape & Hextra & ->).
  split; [exact Hshape |].
  intros key Hkey.
  destruct (mem key (shape_keys shape)) eqn:Hmem; [now apply mem_In |].
  destruct (filter _ (keys fields)) as [| k rest] eqn:Hfilter; [| discriminate].
  assert (Hin : In key (filter (fun k => negb (mem k (shape_keys shape)))
                               (keys fields))).
  { apply filter_In. split; [exact Hkey | now rewrite Hmem]. }
  rewrite Hfilter in Hin. contradiction.
Qed.

(** X19. logseq_search accepts an arguments object exactly when its only
    key is "query" and the query is a string of 1 to 500 characters; the
    validated query is that string, unchanged. *)
Theorem SearchSchema_accepts (fields : jsobject) (params : Search.Params) :
  parse SearchSchema (Some (JObj fields)) = Success params <->
  get_prop (u "query") fields = Some (JStr (Search.query params)) /\
  1 <= str_length (Search.query params) <= 500 /\
  (forall key, In key (keys fields) -> key = u "query").
Proof.
  unfold SearchSchema. split.
  - intros H. apply strict_success_keys in H as [Hshape Hkeys].
    cbn [parse_shape] in Hshape.
    apply both_success in Hshape as (build & query & Hbuild & Hquery & ->).
    injection Hbuild as <-. apply at_path_success in Hquery.
    apply parse_string_success in Hquery as (Hget & Hlo & Hhi).
    cbn [Search.query]. repeat split; try assumption.
    intros key Hkey. specialize (Hkeys key Hkey).
    cbn [shape_keys app] in Hkeys. destruct Hkeys as [<- | []]. reflexivity.
  - intros (Hget & [Hlo Hhi] & Hkeys). destruct params as [query].
    cbn [Search.query] in *. cbn [parse parse_shape shape_keys app].
    rewrite (no_extra_keys [u "query"] fields)
      by (intros key Hkey; left; symmetry; now apply Hkeys).
    rewrite Hget. cbn [parse].
    rewrite (range_issues_ok (Some 1) (Some 500)) by (simpl; lia).
    reflexivity.
Qed.

Example SearchSchema_limits :
  succeeds (parse SearchSchema
                  (Some (JObj [(u "query", JStr (repeat 97%N 500))]))) = true /\
  succeeds (parse SearchSchema
                  (Some (JObj [(u "query", JStr (repeat 97%N 501))]))) = false /\
  succeeds (parse SearchSchema (Some (JObj [(u "query", JStr (u " "))]))) = true.
Proof. repeat split; vm_compute; reflexivity. Qed.

(** ** Handlers, further *)

(** X20. logseq_block_property sends one request, chosen by the [value]
    argument alone: with a value, also [null], it writes the property with
    upsertBlockProperty; without one it reads all the properties of the
    block with getBlockProperties, and the key is not sent. *)
Theorem block_property_request
  (client : LogseqClient) (remote : Remote)
  (indented : forall T : Type, T -> jsstring)
  (fields : jsobject) (params : BlockProperty.Params) :
  parse BlockPropertySchema (Some (JObj fields)) = Success params ->
  map post_body (posts (logseq_block_property client remote indented params)) =
  [ match get_prop (u "value") fields with
    | Some value =>
        {| req_method := u "logseq.Editor.upsertBlockProperty";
           req_args := [ JStr (BlockProperty.id params);
                         JStr (BlockProperty.key params); value ] |}
    | None =>
        {| req_method := u "logseq.Editor.getBlockProperties";
           req_args := [ JStr (BlockProperty.id params) ] |}
    end ].
Proof.
  unfold BlockPropertySchema. intros H.
  apply strict_success_keys in H as [H _]. cbn [parse_shape] in H.
  apply both_success in H as (f2 & value & H & Hvalue & ->).
  apply both_success in H as (f1 & key & H & _ & ->).
  apply both_success in H as (f0 & id & H & _ & ->).
  injection H as <-. apply at_path_success in Hvalue.
  assert (Hv : match value with Some v => v | None => None end =
               get_prop (u "value") fields).
  { destruct (get_prop (u "value") fields) as [v |]; cbn [parse] in Hvalue;
      now injection Hvalue as <-. }
  unfold posts, logseq_block_property, try_catch, bind, ret,
    upsertBlockProperty, getBlockProperties.
  cbn [BlockProperty.value BlockProperty.id BlockProperty.key]. rewrite Hv.
  destruct (get_prop (u "value") fields) as [v |]; rewrite call_run;
    [destruct (call_outcome (on_upsertBlockProperty remote))
    | destruct (call_outcome (on_getBlockProperties remote))];
    reflexivity.
Qed.

Lemma block_property_request_witness :
  map post_body
      (posts (logseq_block_property sampleClient promptRemote sampleStringify
                (BlockProperty.mk (u "b-1") (u "status") (Some JNull)))) =
  [ {| req_method := u "logseq.Editor.upsertBlockProperty";
       req_args := [ JStr (u "b-1"); JStr (u "status"); JNull ] |} ].
Proof.
  apply (block_property_request sampleClient promptRemote sampleStringify
           [ (u "id", JStr (u "b-1")); (u "key", JStr (u "status"));
             (u "value", JNull) ]
           (BlockProperty.mk (u "b-1") (u "status") (Some JNull))).
  reflexivity.
Defined.

Example block_property_read_ignores_key :
  map post_body
      (posts (logseq_block_property sampleClient promptRemote sampleStringify
                (BlockProperty.mk (u "b-1") (u "status") None))) =
  [ {| req_method := u "logseq.Editor.getBlockProperties";
       req_args := [ JStr (u "b-1") ] |} ].
Proof. reflexivity. Qed.

(** X21. logseq_get_page_content reports a page as empty only when the
    block list is missing or has no element: for a page that has blocks,
    all of them blank and without children, the answer is the heading
    alone, with nothing below it. *)
Theorem page_content_of_blank_blocks
  (client : LogseqClient) (remote : Remote)
  (params : GetPageContent.Params) (blocks : list BlockEntity)
  (log : list Posted) :
  call_outcome (on_getPageBlocksTree remote) = inr (Some blocks) ->
  blocks <> [] ->
  forallb quiet blocks = true ->
  fst (logseq_get_page_content client remote params log) =
  inr (textResponse (u "# " ++ GetPageContent.name params ++ LF ++ LF)).
Proof.
  intros Hreply Hsome Hquiet.
  unfold logseq_get_page_content, try_catch, bind, ret, getPageBlocksTree.
  rewrite call_run, Hreply.
  destruct blocks as [| block others]; [contradiction |]. cbn [fst].
  unfold renderBlockTree.
  apply flat_map_quiet with (depth := 0%nat) in Hquiet. rewrite Hquiet.
  cbn [join]. now rewrite app_nil_r.
Qed.

Lemma page_content_of_blank_blocks_witness :
  fst (logseq_get_page_content sampleClient blankPageRemote
         (GetPageContent.mk (u "Inbox")) []) =
  inr (textResponse (u "# " ++ u "Inbox" ++ LF ++ LF)).
Proof.
  apply (page_content_of_blank_blocks sampleClient blankPageRemote
           (GetPageContent.mk (u "Inbox")) [leaf ""; leaf "  "] []).
  - reflexivity.
  - discriminate.
  - reflexivity.
Defined.

(** X22. What logseq_list_pages gets from its validator is within the
    declared bounds: a limit from 1 to 500 and an offset that is not
    negative, whether given or defaulted. *)
Theorem list_pages_params_in_bounds (input : option json)
  (params : ListPages.Params) :
  parse ListPagesSchema input = Success params ->
  1 <= ListPages.limit params <= 500 /\ 0 <= ListPages.offset params.
Proof. apply ListPagesSchema_bounds. Qed.

Lemma list_pages_params_in_bounds_witness :
  1 <= ListPages.limit defaultListParams <= 500 /\
  0 <= ListPages.offset defaultListParams.
Proof.
  apply (list_pages_params_in_bounds (Some (JObj [])) defaultListParams).
  reflexivity.
Defined.

(** ** Start *)

Lemma truthy_nonempty (s : jsstring) : truthy s = true <-> s <> [].
Proof. destruct s; simpl; split; congruence. Qed.

(** X23. Loading index.ts exits with code 1, before a client is made,
    exactly when LOGSEQ_API_TOKEN is unset or empty; otherwise it goes on
    to serve: the client carries that token, and the transport is HTTP
    exactly when TRANSPORT is the string "http" (otherwise stdio, also for
    "HTTP" or an unknown name), on the port named by PORT, "3000" when
    PORT is unset or empty. *)
Theorem main_start (env : ProcessEnv) :
  (main env = Exit 1 <->
   LOGSEQ_API_TOKEN env = None \/ LOGSEQ_API_TOKEN env = Some []) /\
  (forall client transport,
      main env = Serving client transport ->
      LOGSEQ_API_TOKEN env = Some (token client) /\
      client = new_LogseqClient (token client) (LOGSEQ_API_URL env) /\
      transport =
      if jsstring_eqb (env_or (TRANSPORT env) (u "stdio")) (u "http")
      then Http (env_or (PORT env) (u "3000"))
      else Stdio) /\
  (forall port,
      (exists client, main env = Serving client (Http port)) ->
      TRANSPORT env = Some (u "http") /\
      (PORT env = Some port \/
       port = u "3000" /\ (PORT env = None \/ PORT env = Some []))).
Proof.
  unfold main.
  destruct (LOGSEQ_API_TOKEN env) as [[| c apiToken] |]; cbn [truthy].
  - split; [| split].
    + split; auto.
    + discriminate.
    + intros port [client H]. discriminate.
  - split; [| split].
    + split.
      * destruct (jsstring_eqb _ _); discriminate.
      * intros [H | H]; discriminate.
    + intros client transport H.
      destruct (jsstring_eqb _ _); injection H as <- <-; auto.
    + intros port [client H].
      destruct (jsstring_eqb _ _) eqn:Hhttp; [| discriminate].
      injection H as _ <-. apply jsstring_eqb_eq in Hhttp.
      split.
      * unfold env_or in Hhttp.
        destruct (TRANSPORT env) as [[| t ts] |]; cbn [truthy] in Hhttp;
          first [ discriminate | now rewrite Hhttp ].
      * unfold env_or. destruct (PORT env) as [[| p ps] |]; cbn [truthy]; auto.
  - split; [| split].
    + split; auto.
    + discriminate.
    + intros port [client H]. discriminate.
Qed.

Example main_transport_is_case_sensitive :
  main (mkEnv (Some (u "secret")) None (Some (u "HTTP")) (Some (u "8080"))) =
  Serving sampleClient Stdio /\
  main (mkEnv (Some (u "secret")) None (Some (u "http")) None) =
  Serving sampleClient (Http (u "3000")) /\
  main tokenOnlyEnv = Serving sampleClient Stdio /\
  main (mkEnv (Some []) None (Some (u "http")) None) = Exit 1.
Proof. repeat split. Qed.

(** ** What a call never throws *)


